(** * Mark-default resolution and legend compilation (vega-lite)

    A shallow embedding of [src/compile/config.ts] ([initMarkConfig]) and of
    the legend compiler ([parseLegendComponent], [parseLegend] and the
    [properties] namespace), with the properties the specification states
    about them.

    JavaScript objects are finite maps from property names to values; a
    property can be present and hold [undefined], which the code itself
    produces ([cfg[property] = undefined]) and which [extend] copies. *)

From stdpp Require Import gmap strings list fin_maps pretty.
From Stdlib Require Import QArith.

#[local] Set Warnings "-register-all,-clear-no-such-hyp".
#[local] Open Scope string_scope.

(** ** JavaScript values *)

(** The values the two source files handle.  An array is the object of its
    index properties: nothing in the embedded code observes [length] or
    array-ness, only [for ... in] enumeration and truthiness.  A number is
    the rational its literal denotes. *)
Inductive value : Type :=
  | VUndef
  | VNull
  | VBool (b : bool)
  | VNum (q : Q)
  | VStr (s : string)
  | VObj (o : gmap string value).

Abbreviation obj := (gmap string value).

(** [o[k]] on an object: a missing property reads as [undefined]. *)
Definition get (o : obj) (k : string) : value := default VUndef (o !! k).

(** [v === undefined]. *)
Definition is_undef (v : value) : bool :=
  match v with VUndef => true | _ => false end.

(** [v === s] for a string constant [s]. *)
Definition is_str (v : value) (s : string) : bool :=
  match v with VStr s' => bool_decide (s' = s) | _ => false end.

(** ToBoolean. *)
Definition truthy (v : value) : bool :=
  match v with
  | VUndef | VNull => false
  | VBool b => b
  | VNum q => negb (Qeq_bool q 0)
  | VStr s => negb (bool_decide (s = ""))
  | VObj _ => true
  end.

(** [a || b]: it returns one of its operands. *)
Definition js_or (a b : value) : value := if truthy a then a else b.

(** [v[k]] on any value: [None] is the TypeError of reading a property of
    [undefined] or [null]; the other primitives have none of the property
    names the code reads. *)
Definition get_prop (v : value) (k : string) : option value :=
  match v with
  | VUndef | VNull => None
  | VObj o => Some (get o k)
  | _ => Some VUndef
  end.

(** The own enumerable properties [for (name in x)] visits: those of an
    object, the indices of a string, nothing for the other primitives. *)
Definition enumerable (x : value) : obj :=
  match x with
  | VObj o => o
  | VStr s =>
      list_to_map
        (imap (fun i c => (pretty i, VStr (String c EmptyString)))
              (String.list_ascii_of_string s))
  | _ => ∅
  end.

(** Modelled from the spec: the general-purpose helpers of [util] (object
    merge, key listing, set difference) are not among the embedded sources.
    [extend(obj, x)] copies every enumerable property of [x] onto [obj] and
    returns [obj], so [x] wins on a common key; [keys(x)] lists the
    enumerable property names; [without(xs, excluded)] keeps the items of
    [xs] that are not excluded. *)
Definition extend (o : obj) (x : value) : obj := enumerable x ∪ o.

Definition keys (x : value) : list string := elements (dom (enumerable x)).

Definition without (xs excluded : list string) : list string :=
  filter (fun item => item ∉ excluded) xs.

(** ** Enumerations *)

(** Modelled from the spec: the closed set of mark types ([mark.ts] is not
    among the embedded sources); the names are the ones the two embedded
    files import. *)
Inductive Mark : Set :=
  AREA | BAR | LINE | POINT | TEXT | TICK | RULE | CIRCLE | SQUARE.

#[global] Instance Mark_eq_dec : EqDecision Mark.
Proof. solve_decision. Defined.

Definition mark_name (m : Mark) : string :=
  match m with
  | AREA => "area" | BAR => "bar" | LINE => "line" | POINT => "point"
  | TEXT => "text" | TICK => "tick" | RULE => "rule" | CIRCLE => "circle"
  | SQUARE => "square"
  end.

(** Modelled from the spec: the encoding channels ([channel.ts] is not
    among the embedded sources).  A channel is its name at run time: it indexes
    the encoding and the legend mapping. *)
Inductive Channel : Set :=
  X | Y | ROW | COLUMN | SHAPE | SIZE | COLOR | TEXT_CHANNEL | DETAIL
  | LABEL | PATH | ORDER.

#[global] Instance Channel_eq_dec : EqDecision Channel.
Proof. solve_decision. Defined.

Definition channel_name (c : Channel) : string :=
  match c with
  | X => "x" | Y => "y" | ROW => "row" | COLUMN => "column"
  | SHAPE => "shape" | SIZE => "size" | COLOR => "color"
  | TEXT_CHANNEL => "text" | DETAIL => "detail" | LABEL => "label"
  | PATH => "path" | ORDER => "order"
  end.

(** The [ORDINAL] constant of [type.ts]. *)
Definition ORDINAL : string := "ordinal".

(** [Config]: only its [mark] member is read here ([config.mark],
    [model.config().mark]). *)
Record Config : Type := { markConfig : obj }.

(** ** [src/compile/config.ts] *)

Module CompileConfig.

(** The helpers [initMarkConfig] imports from [encoding] and [fielddef]. *)
Class EncodingHelpers : Type := {
  isAggregate : obj -> bool;
  has : obj -> Channel -> bool;
  isMeasure : value -> bool;
}.

Section InitMarkConfig.
Context `{EncodingHelpers}.

(** The callback of the [reduce]: one [case] of the [switch] per property. *)
Definition rule (mark : Mark) (encoding : obj) (config : Config)
    (cfg : obj) (property : string) : obj :=
  let value := get (markConfig config) property in
  if String.eqb property "filled" then
    if is_undef value then
      <[property := VBool (bool_decide (mark ≠ POINT) &&
                           bool_decide (mark ≠ LINE) &&
                           bool_decide (mark ≠ RULE))]> cfg
    else cfg
  else if String.eqb property "opacity" then
    if is_undef value && bool_decide (mark ∈ [POINT; TICK; CIRCLE; SQUARE]) then
      if negb (isAggregate encoding) || has encoding DETAIL then
        <[property := VNum (7 # 10)]> cfg
      else cfg
    else cfg
  else if String.eqb property "orient" then
    let xIsMeasure := isMeasure (get encoding "x") in
    let yIsMeasure := isMeasure (get encoding "y") in
    if xIsMeasure && negb yIsMeasure then
      <[property := VStr "horizontal"]> cfg
    else if negb xIsMeasure && yIsMeasure then
      <[property := VUndef]> cfg
    else cfg
  else if String.eqb property "align" then
    if is_undef value then
      <[property := VStr (if has encoding X then "center" else "right")]> cfg
    else cfg
  else cfg.

Definition initMarkConfig (mark : Mark) (encoding : obj) (config : Config) : obj :=
  extend
    (foldl (rule mark encoding config) ∅ ["filled"; "opacity"; "orient"; "align"])
    (VObj (markConfig config)).

(** The object the [reduce] builds, before the base configuration is
    merged over it. *)
Definition derived (mark : Mark) (encoding : obj) (config : Config) : obj :=
  foldl (rule mark encoding config) ∅ ["filled"; "opacity"; "orient"; "align"].

End InitMarkConfig.

End CompileConfig.

(** ** The legend compiler *)

Module CompileLegend.

(** A legend request, [model.legend(channel)]: absent, a boolean, or an
    object of overrides ([LegendProperties] is [boolean | {...}]). *)
Inductive LegendRequest : Type :=
  | LegendAbsent
  | LegendBool (b : bool)
  | LegendObj (o : obj).

Definition legend_truthy (legend : LegendRequest) : bool :=
  match legend with
  | LegendAbsent => false
  | LegendBool b => b
  | LegendObj _ => true
  end.

(** [typeof legend !== 'boolean']. *)
Definition not_boolean (legend : LegendRequest) : bool :=
  match legend with LegendBool _ => false | _ => true end.

(** [legend[k]]: [None] is the TypeError on an absent request. *)
Definition legend_get (legend : LegendRequest) (k : string) : option value :=
  match legend with
  | LegendAbsent => None
  | LegendBool _ => Some VUndef
  | LegendObj o => Some (get o k)
  end.

(** The accessors of [UnitModel] the compiler calls.  [fieldDef] always
    answers with an object, and [scaleName] takes a channel name or one of
    the scale constants. *)
Record UnitModel : Type := {
  mark : Mark;
  fieldDef : Channel -> obj;
  legend : Channel -> LegendRequest;
  scaleName : string -> string;
  has : Channel -> bool;
  config : Config;
}.

(** What the compiler imports from [fielddef], [common] and [scale]: the
    field-title, format-mixin and time-format resolvers, the helper that
    copies mark configuration onto a property set (taken as the function
    from the set before the call to the set after it), and three
    constants. *)
Class Collaborators : Type := {
  fieldTitle : obj -> value;
  utilFormatMixins : UnitModel -> Channel -> value -> obj;
  timeFormat : UnitModel -> Channel -> string;
  applyMarkConfig : obj -> UnitModel -> list string -> obj;
  FILL_STROKE_CONFIG : list string;
  COLOR_LEGEND : string;
  COLOR_LEGEND_LABEL : string;
}.

(** [fieldDef.type === ORDINAL || fieldDef.bin || fieldDef.timeUnit]. *)
Definition useColorLegendScale (fieldDef : obj) : value :=
  js_or (js_or (VBool (is_str (get fieldDef "type") ORDINAL))
               (get fieldDef "bin"))
        (get fieldDef "timeUnit").

Section Compile.
Context `{Collaborators}.

(** [null] for a channel that carries no legend. *)
Definition getLegendDefWithScale (model : UnitModel) (channel : Channel) : value :=
  match channel with
  | COLOR =>
      let fieldDef := fieldDef model COLOR in
      let scale :=
        scaleName model
          (if truthy (useColorLegendScale fieldDef)
           then COLOR_LEGEND else channel_name COLOR) in
      if truthy (get (markConfig (config model)) "filled")
      then VObj {[ "fill" := VStr scale ]}
      else VObj {[ "stroke" := VStr scale ]}
  | SIZE => VObj {[ "size" := VStr (scaleName model (channel_name SIZE)) ]}
  | SHAPE => VObj {[ "shape" := VStr (scaleName model (channel_name SHAPE)) ]}
  | _ => VNull
  end.

Definition title (legend : LegendRequest) (fieldDef : obj) : option value :=
  explicit ← (if not_boolean legend then legend_get legend "title"
              else Some (VBool false));
  Some (if truthy explicit then explicit else fieldTitle fieldDef).

Definition formatMixins (legend : LegendRequest) (model : UnitModel)
    (channel : Channel) : option obj :=
  let fieldDef := fieldDef model channel in
  if truthy (get fieldDef "bin") then Some ∅
  else
    format ← (if not_boolean legend then legend_get legend "format"
              else Some VUndef);
    Some (utilFormatMixins model channel format).

(** The [properties] namespace. *)

(** The [switch (mark)] of [symbols]. *)
Definition symbols_shape (mark : Mark) (symbols : obj) : obj :=
  match mark with
  | BAR | TICK | TEXT =>
      <["shape" := VObj {[ "value" := VStr "square" ]}]> symbols
  | CIRCLE | SQUARE =>
      <["shape" := VObj {[ "value" := VStr (mark_name mark) ]}]> symbols
  | POINT | LINE | AREA => symbols
  | RULE => symbols
  end.

Definition symbols (fieldDef : obj) (symbolsSpec : value)
    (model : UnitModel) (channel : Channel) : value :=
  let symbols : obj := ∅ in
  let mark := mark model in
  let symbols := symbols_shape mark symbols in
  let filled := truthy (get (markConfig (config model)) "filled") in
  let symbols :=
    applyMarkConfig symbols model
      (if bool_decide (channel = COLOR)
       then without FILL_STROKE_CONFIG [if filled then "fill" else "stroke"]
       else FILL_STROKE_CONFIG) in
  let symbols :=
    if filled then <["strokeWidth" := VObj {[ "value" := VNum 0 ]}]> symbols
    else symbols in
  let value :=
    if has model COLOR && bool_decide (channel = COLOR) then
      if truthy (useColorLegendScale fieldDef) then
        VObj {[ "scale" := VStr (scaleName model (channel_name COLOR));
                "field" := VStr "data" ]}
      else VUndef
    else if truthy (get (CompileLegend.fieldDef model COLOR) "value") then
      VObj {[ "value" := get (CompileLegend.fieldDef model COLOR) "value" ]}
    else VUndef in
  let symbols :=
    if negb (is_undef value) then
      if filled then <["fill" := value]> symbols
      else <["stroke" := value]> symbols
    else if bool_decide (channel ≠ COLOR) then
      let k := if filled then "fill" else "stroke" in
      <[k := js_or (get symbols k)
               (VObj {[ "value" := get (markConfig (config model)) "color" ]})]>
        symbols
    else symbols in
  let symbols := extend symbols (js_or symbolsSpec (VObj ∅)) in
  if bool_decide (0 < length (keys (VObj symbols)))%nat then VObj symbols
  else VUndef.


Definition labels (fieldDef : obj) (symbolsSpec : value)
    (model : UnitModel) (channel : Channel) : value :=
  if bool_decide (channel = COLOR) then
    if is_str (get fieldDef "type") ORDINAL then
      VObj {[ "text" :=
                VObj {[ "scale" := VStr (scaleName model COLOR_LEGEND);
                        "field" := VStr "data" ]} ]}
    else if truthy (get fieldDef "bin") then
      VObj {[ "text" :=
                VObj {[ "scale" := VStr (scaleName model COLOR_LEGEND_LABEL);
                        "field" := VStr "data" ]} ]}
    else if truthy (get fieldDef "timeUnit") then
      VObj {[ "text" :=
                VObj {[ "template" :=
                          VStr ("{{ datum.data | time:'"
                                +:+ timeFormat model channel +:+ "'}}") ]} ]}
    else VUndef
  else VUndef.

(** [properties[group]]: the namespace holds a rule for two groups. *)
Definition properties (group : string)
    : option (obj -> value -> UnitModel -> Channel -> value) :=
  if String.eqb group "symbols" then Some symbols
  else if String.eqb group "labels" then Some labels
  else None.

(** [value !== undefined && keys(value).length > 0]. *)
Definition has_keys (value : value) : bool :=
  negb (is_undef value) && bool_decide (0 < length (keys value))%nat.

(** The body of the loop over ['orient', 'values']. *)
Definition copy_property (legend : LegendRequest) (def : obj)
    (property : string) : option obj :=
  value ← legend_get legend property;
  Some (if negb (is_undef value) then <[property := value]> def else def).

(** The body of the loop over the four groups.  [def.properties[group] =
    value] on a [def.properties] that is no object is a TypeError (the
    module runs in strict mode). *)
Definition add_group (fieldDef : obj) (props : value) (model : UnitModel)
    (channel : Channel) (def : obj) (group : string) : option obj :=
  override ← get_prop props group;
  let value :=
    match properties group with
    | Some rule => rule fieldDef override model channel
    | None => override
    end in
  if has_keys value then
    match js_or (get def "properties") (VObj ∅) with
    | VObj p => Some (<["properties" := VObj (<[group := value]> p)]> def)
    | _ => None
    end
  else Some def.

(** [xs.forEach] and [xs.reduce] with a body that can throw. *)
Fixpoint forEach {S A : Type} (body : S -> A -> option S) (s : S)
    (xs : list A) : option S :=
  match xs with
  | [] => Some s
  | x :: xs' => s' ← body s x; forEach body s' xs'
  end.

(** [(typeof legend !== 'boolean' && legend.properties) || {}]. *)
Definition properties_of (legend : LegendRequest) : option value :=
  requested ← (if not_boolean legend then legend_get legend "properties"
               else Some (VBool false));
  Some (js_or requested (VObj ∅)).

(** The value the loop over the groups computes for a group, the override
    read as [undefined] when there is none. *)
Definition group_value (fieldDef : obj) (props : value) (model : UnitModel)
    (channel : Channel) (group : string) : value :=
  let override := default VUndef (get_prop props group) in
  match properties group with
  | Some rule => rule fieldDef override model channel
  | None => override
  end.

(** [def.properties[group]] read back from a legend definition. *)
Definition group_of (def : obj) (group : string) : option value :=
  match get def "properties" with
  | VObj p => p !! group
  | _ => None
  end.

(** The property names the compiler itself writes on a legend
    definition. *)
Definition legend_keys : list string :=
  ["fill"; "stroke"; "size"; "shape"; "title"; "orient"; "values";
   "properties"].

(** The contract the format-mixin resolver is used under: it produces
    formatting properties, none of the names above. *)
Definition formatting_only (model : UnitModel) (channel : Channel) : Prop :=
  forall format k, k ∈ legend_keys ->
    utilFormatMixins model channel format !! k = None.

(** [None] is a TypeError: a channel without legend scale ([def] is
    [null]) or an absent legend request. *)
Definition parseLegend (model : UnitModel) (channel : Channel) : option obj :=
  let fieldDef := fieldDef model channel in
  let legend := legend model channel in
  let def := getLegendDefWithScale model channel in
  t ← title legend fieldDef;
  def ← (match def with VObj d => Some (<["title" := t]> d) | _ => None end);
  mixins ← formatMixins legend model channel;
  let def := extend def (VObj mixins) in
  def ← forEach (copy_property legend) def ["orient"; "values"];
  props ← properties_of legend;
  forEach (add_group fieldDef props model channel) def
          ["title"; "symbols"; "legend"; "labels"].

(** The callback of the [reduce] in [parseLegendComponent]. *)
Definition component_step (model : UnitModel)
    (legendComponent : gmap string obj) (channel : Channel)
    : option (gmap string obj) :=
  if legend_truthy (legend model channel) then
    def ← parseLegend model channel;
    Some (<[channel_name channel := def]> legendComponent)
  else Some legendComponent.

Definition parseLegendComponent (model : UnitModel)
    : option (gmap string obj) :=
  forEach (component_step model) ∅ [COLOR; SIZE; SHAPE].

End Compile.

End CompileLegend.

(** ** The same code over a store of objects

    The embedding above computes the value of each object.  To state that a
    call leaves the objects it is given as they were, the embedding below
    keeps objects in a store: a value is a primitive or a reference, an
    object literal allocates, and an assignment [o[k] = v] updates the
    object [o] refers to, for every holder of that reference. *)

Module Store.

Definition loc : Type := positive.

Inductive hvalue : Type :=
  | HUndef
  | HNull
  | HBool (b : bool)
  | HNum (q : Q)
  | HStr (s : string)
  | HRef (l : loc).

Abbreviation hobj := (gmap string hvalue).
Abbreviation heap := (gmap loc hobj).

Definition is_undef (v : hvalue) : bool :=
  match v with HUndef => true | _ => false end.

Definition is_str (v : hvalue) (s : string) : bool :=
  match v with HStr s' => bool_decide (s' = s) | _ => false end.

Definition truthy (v : hvalue) : bool :=
  match v with
  | HUndef | HNull => false
  | HBool b => b
  | HNum q => negb (Qeq_bool q 0)
  | HStr s => negb (bool_decide (s = ""))
  | HRef _ => true
  end.

Definition js_or (a b : hvalue) : hvalue := if truthy a then a else b.

(** The object a reference designates. *)
Definition object_at (h : heap) (l : loc) : hobj := default ∅ (h !! l).

(** The own enumerable properties of a value, read from the store. *)
Definition enumerable (h : heap) (x : hvalue) : hobj :=
  match x with
  | HRef l => object_at h l
  | HStr s =>
      list_to_map
        (imap (fun i c => (pretty i, HStr (String c EmptyString)))
              (String.list_ascii_of_string s))
  | _ => ∅
  end.

(** The value a store value stands for: references are followed, [depth]
    levels deep. *)
Fixpoint reify (depth : nat) (h : heap) (v : hvalue) : value :=
  match v with
  | HUndef => VUndef
  | HNull => VNull
  | HBool b => VBool b
  | HNum q => VNum q
  | HStr s => VStr s
  | HRef l =>
      match depth with
      | O => VUndef
      | S depth' => VObj (reify depth' h <$> object_at h l)
      end
  end.

(** *** Computations: a result or a thrown TypeError, and the store after *)

Definition M (A : Type) : Type := heap -> option A * heap.

Definition ret {A} (a : A) : M A := fun h => (Some a, h).

Definition bind {A B} (m : M A) (k : A -> M B) : M B :=
  fun h => match m h with
           | (Some a, h') => k a h'
           | (None, h') => (None, h')
           end.

Definition throw {A} : M A := fun h => (None, h).

(** Reading the store without changing it. *)
Definition reads {A} (f : heap -> A) : M A := fun h => (Some (f h), h).

Notation "'do' x <- m ; k" := (bind m (fun x => k))
  (at level 10, x name, m at level 100, k at level 200,
   format "'[v' 'do'  x  <-  m ; '/' k ']'").
Notation "'run' m ; k" := (bind m (fun _ => k))
  (at level 10, m at level 100, k at level 200,
   format "'[v' 'run'  m ; '/' k ']'").

(** An object literal. *)
Definition new_object (o : hobj) : M hvalue :=
  fun h => let l := fresh (dom h) in (Some (HRef l), <[l := o]> h).

(** [v[k]]. *)
Definition get_member (v : hvalue) (k : string) : M hvalue :=
  match v with
  | HRef l => reads (fun h => default HUndef (object_at h l !! k))
  | HUndef | HNull => throw
  | _ => ret HUndef
  end.

(** [v[k] = x]; on a primitive it is a TypeError (strict mode). *)
Definition set_member (v : hvalue) (k : string) (x : hvalue) : M unit :=
  match v with
  | HRef l => fun h => (Some tt, <[l := <[k := x]> (object_at h l)]> h)
  | _ => throw
  end.

(** [extend(target, x)]: [for (name in x) target[name] = x[name]], then
    [target]. *)
Definition extend (target x : hvalue) : M hvalue :=
  match target with
  | HRef l =>
      fun h => (Some target, <[l := enumerable h x ∪ object_at h l]> h)
  | _ => fun h => if decide (enumerable h x = ∅) then (Some target, h) else (None, h)
  end.

(** [keys(x).length]. *)
Definition keys_length (x : hvalue) : M nat :=
  reads (fun h => length (elements (dom (enumerable h x)))).

(** [xs.reduce(body, init)]. *)
Fixpoint reduce {S A} (body : S -> A -> M S) (s : S) (xs : list A) : M S :=
  match xs with
  | [] => ret s
  | x :: xs' => do s' <- body s x; reduce body s' xs'
  end.

(** [xs.forEach(body)]. *)
Fixpoint forEach {A} (body : A -> M unit) (xs : list A) : M unit :=
  match xs with
  | [] => ret tt
  | x :: xs' => run body x; forEach body xs'
  end.

(** *** What a call may change *)

(** The store after [m] still holds every object of the store before,
    unchanged. *)
Definition leaves_store {A} (m : M A) : Prop :=
  forall h l, l ∈ dom h -> (m h).2 !! l = h !! l.

(** A reference [m] returns designates an object [m] has created. *)
Definition returns_fresh (m : M hvalue) : Prop :=
  forall h l, (m h).1 = Some (HRef l) -> l ∉ dom h.

(** Running [m] from [h] keeps the objects of [D] as they are, and its
    result and final store satisfy [Q]. *)
Definition preserves {A} (D : gset loc) (m : M A) (Q : A -> heap -> Prop)
    (h : heap) : Prop :=
  D ⊆ dom h ->
  D ⊆ dom (m h).2 /\
  (forall l, l ∈ D -> (m h).2 !! l = h !! l) /\
  (forall a, (m h).1 = Some a -> Q a (m h).2).

(** The object at [ld] is there, and its [properties] member, if it refers
    to an object, refers to none of [D]. *)
Definition properties_private (D : gset loc) (ld : loc) (h : heap) : Prop :=
  ld ∈ dom h /\
  forall p, object_at h ld !! "properties" = Some (HRef p) -> p ∉ D.

(** *** [src/compile/config.ts] *)

Module Config.

(** The helpers imported from [encoding] and [fielddef]: they inspect the
    encoding they are given and change nothing. *)
Class EncodingHelpers : Type := {
  isAggregate : heap -> hvalue -> bool;
  has : heap -> hvalue -> Channel -> bool;
  isMeasure : heap -> hvalue -> bool;
}.

Section InitMarkConfig.
Context `{EncodingHelpers}.

Definition rule (mark : Mark) (encoding config : hvalue)
    (cfg : hvalue) (property : string) : M hvalue :=
  do configMark <- get_member config "mark";
  do value <- get_member configMark property;
  run (if String.eqb property "filled" then
         if is_undef value then
           set_member cfg property
             (HBool (bool_decide (mark ≠ POINT) && bool_decide (mark ≠ LINE)
                     && bool_decide (mark ≠ RULE)))
         else ret tt
       else if String.eqb property "opacity" then
         if is_undef value
            && bool_decide (mark ∈ [POINT; TICK; CIRCLE; SQUARE]) then
           do aggregate <- reads (fun h => isAggregate h encoding);
           do detail <- reads (fun h => has h encoding DETAIL);
           if negb aggregate || detail
           then set_member cfg property (HNum (7 # 10))
           else ret tt
         else ret tt
       else if String.eqb property "orient" then
         do x <- get_member encoding "x";
         do xIsMeasure <- reads (fun h => isMeasure h x);
         do y <- get_member encoding "y";
         do yIsMeasure <- reads (fun h => isMeasure h y);
         if xIsMeasure && negb yIsMeasure then
           set_member cfg property (HStr "horizontal")
         else if negb xIsMeasure && yIsMeasure then
           set_member cfg property HUndef
         else ret tt
       else if String.eqb property "align" then
         if is_undef value then
           do x <- reads (fun h => has h encoding X);
           set_member cfg property (HStr (if x then "center" else "right"))
         else ret tt
       else ret tt);
  ret cfg.

Definition initMarkConfig (mark : Mark) (encoding config : hvalue) : M hvalue :=
  do init <- new_object ∅;
  do cfg <- reduce (rule mark encoding config) init
              ["filled"; "opacity"; "orient"; "align"];
  do configMark <- get_member config "mark";
  extend cfg configMark.

End InitMarkConfig.

End Config.

(** *** The legend compiler *)

Module Legend.

(** [model.legend(channel)] is [undefined], a boolean or a reference to the
    request; [model.fieldDef(channel)] and [model.config()] are references
    to objects of the model. *)
Record UnitModel : Type := {
  mark : Mark;
  fieldDef : Channel -> hvalue;
  legend : Channel -> hvalue;
  scaleName : string -> string;
  has : Channel -> bool;
  config : hvalue;
}.

(** The imported helpers.  The title and time-format resolvers inspect the
    store; the format-mixin resolver returns an object and [applyMarkConfig]
    assigns to the property set it is given, so they are computations. *)
Class Collaborators : Type := {
  fieldTitle : heap -> hvalue -> hvalue;
  utilFormatMixins : UnitModel -> Channel -> hvalue -> M hvalue;
  timeFormat : heap -> UnitModel -> Channel -> string;
  applyMarkConfig : hvalue -> UnitModel -> list string -> M unit;
  FILL_STROKE_CONFIG : list string;
  COLOR_LEGEND : string;
  COLOR_LEGEND_LABEL : string;
}.

(** [typeof legend !== 'boolean']. *)
Definition not_boolean (legend : hvalue) : bool :=
  match legend with HBool _ => false | _ => true end.

Definition useColorLegendScale (fieldDef : hvalue) : M hvalue :=
  do type <- get_member fieldDef "type";
  do bin <- get_member fieldDef "bin";
  do timeUnit <- get_member fieldDef "timeUnit";
  ret (js_or (js_or (HBool (is_str type ORDINAL)) bin) timeUnit).

Section Compile.
Context `{Collaborators}.

Definition getLegendDefWithScale (model : UnitModel) (channel : Channel)
    : M hvalue :=
  match channel with
  | COLOR =>
      let fieldDef := fieldDef model COLOR in
      do use <- useColorLegendScale fieldDef;
      let scale :=
        scaleName model
          (if truthy use then COLOR_LEGEND else channel_name COLOR) in
      do markConfig <- get_member (config model) "mark";
      do filled <- get_member markConfig "filled";
      if truthy filled then new_object {[ "fill" := HStr scale ]}
      else new_object {[ "stroke" := HStr scale ]}
  | SIZE => new_object {[ "size" := HStr (scaleName model (channel_name SIZE)) ]}
  | SHAPE => new_object {[ "shape" := HStr (scaleName model (channel_name SHAPE)) ]}
  | _ => ret HNull
  end.

Definition title (legend fieldDef : hvalue) : M hvalue :=
  do explicit <- (if not_boolean legend then get_member legend "title"
                  else ret (HBool false));
  if truthy explicit then ret explicit
  else reads (fun h => fieldTitle h fieldDef).

Definition formatMixins (legend : hvalue) (model : UnitModel)
    (channel : Channel) : M hvalue :=
  let fieldDef := fieldDef model channel in
  do bin <- get_member fieldDef "bin";
  if truthy bin then new_object ∅
  else
    do format <- (if not_boolean legend then get_member legend "format"
                  else ret HUndef);
    utilFormatMixins model channel format.

Definition symbols (fieldDef symbolsSpec : hvalue) (model : UnitModel)
    (channel : Channel) : M hvalue :=
  do symbols <- new_object ∅;
  let mark := mark model in
  run (match mark with
       | BAR | TICK | TEXT =>
           do shape <- new_object {[ "value" := HStr "square" ]};
           set_member symbols "shape" shape
       | CIRCLE | SQUARE =>
           do shape <- new_object {[ "value" := HStr (mark_name mark) ]};
           set_member symbols "shape" shape
       | POINT | LINE | AREA => ret tt
       | RULE => ret tt
       end);
  do markConfig <- get_member (config model) "mark";
  do filledValue <- get_member markConfig "filled";
  let filled := truthy filledValue in
  run applyMarkConfig symbols model
        (if bool_decide (channel = COLOR)
         then without FILL_STROKE_CONFIG [if filled then "fill" else "stroke"]
         else FILL_STROKE_CONFIG);
  run (if filled then
         do width <- new_object {[ "value" := HNum 0 ]};
         set_member symbols "strokeWidth" width
       else ret tt);
  do value <-
    (if has model COLOR && bool_decide (channel = COLOR) then
       do use <- useColorLegendScale fieldDef;
       if truthy use then
         new_object {[ "scale" := HStr (scaleName model (channel_name COLOR));
                       "field" := HStr "data" ]}
       else ret HUndef
     else
       do colorValue <- get_member (Legend.fieldDef model COLOR) "value";
       if truthy colorValue then new_object {[ "value" := colorValue ]}
       else ret HUndef);
  run (if negb (is_undef value) then
         if filled then set_member symbols "fill" value
         else set_member symbols "stroke" value
       else if bool_decide (channel ≠ COLOR) then
         let k := if filled then "fill" else "stroke" in
         do current <- get_member symbols k;
         do swatch <-
           (if truthy current then ret current
            else
              do markConfig <- get_member (config model) "mark";
              do color <- get_member markConfig "color";
              new_object {[ "value" := color ]});
         set_member symbols k swatch
       else ret tt);
  do override <- (if truthy symbolsSpec then ret symbolsSpec else new_object ∅);
  do symbols <- extend symbols override;
  do n <- keys_length symbols;
  ret (if bool_decide (0 < n)%nat then symbols else HUndef).

Definition labels (fieldDef symbolsSpec : hvalue) (model : UnitModel)
    (channel : Channel) : M hvalue :=
  if bool_decide (channel = COLOR) then
    do type <- get_member fieldDef "type";
    if is_str type ORDINAL then
      do text <- new_object {[ "scale" := HStr (scaleName model COLOR_LEGEND);
                               "field" := HStr "data" ]};
      new_object {[ "text" := text ]}
    else
      do bin <- get_member fieldDef "bin";
      if truthy bin then
        do text <- new_object
                     {[ "scale" := HStr (scaleName model COLOR_LEGEND_LABEL);
                        "field" := HStr "data" ]};
        new_object {[ "text" := text ]}
      else
        do timeUnit <- get_member fieldDef "timeUnit";
        if truthy timeUnit then
          do format <- reads (fun h => timeFormat h model channel);
          do text <- new_object
                       {[ "template" :=
                            HStr ("{{ datum.data | time:'" +:+ format +:+ "'}}") ]};
          new_object {[ "text" := text ]}
        else ret HUndef
  else ret HUndef.

Definition properties (group : string)
    : option (hvalue -> hvalue -> UnitModel -> Channel -> M hvalue) :=
  if String.eqb group "symbols" then Some symbols
  else if String.eqb group "labels" then Some labels
  else None.

(** The body of the loop over ['orient', 'values']. *)
Definition copy_property (legend def : hvalue) (property : string) : M unit :=
  do value <- get_member legend property;
  if negb (is_undef value) then set_member def property value else ret tt.

(** The body of the loop over the four groups. *)
Definition add_group (fieldDef props : hvalue) (model : UnitModel)
    (channel : Channel) (def : hvalue) (group : string) : M unit :=
  do override <- get_member props group;
  do value <-
    (match properties group with
     | Some rule => rule fieldDef override model channel
     | None => ret override
     end);
  do n <- keys_length value;
  if negb (is_undef value) && bool_decide (0 < n)%nat then
    do current <- get_member def "properties";
    do fresh_or_current <-
      (if truthy current then ret current else new_object ∅);
    run set_member def "properties" fresh_or_current;
    do target <- get_member def "properties";
    set_member target group value
  else ret tt.

Definition parseLegend (model : UnitModel) (channel : Channel) : M hvalue :=
  let fieldDef := fieldDef model channel in
  let legend := legend model channel in
  do def <- getLegendDefWithScale model channel;
  do t <- title legend fieldDef;
  run set_member def "title" t;
  do mixins <- formatMixins legend model channel;
  run extend def mixins;
  run forEach (copy_property legend def) ["orient"; "values"];
  do requested <- (if not_boolean legend then get_member legend "properties"
                   else ret (HBool false));
  do props <- (if truthy requested then ret requested else new_object ∅);
  run forEach (add_group fieldDef props model channel def)
        ["title"; "symbols"; "legend"; "labels"];
  ret def.

Definition component_step (model : UnitModel) (legendComponent : hvalue)
    (channel : Channel) : M hvalue :=
  if truthy (legend model channel) then
    do def <- parseLegend model channel;
    run set_member legendComponent (channel_name channel) def;
    ret legendComponent
  else ret legendComponent.

Definition parseLegendComponent (model : UnitModel) : M hvalue :=
  do init <- new_object ∅;
  reduce (component_step model) init [COLOR; SIZE; SHAPE].

(** The contract the two computations among the imported helpers are used
    under: [applyMarkConfig] assigns to the property set it is given and
    to nothing else that exists; the format-mixin resolver changes nothing
    that exists and returns formatting properties, not a [properties]
    member. *)
Definition helpers_contract : Prop :=
  (forall target model propsList h l,
     l ∈ dom h -> l ≠ target ->
     (applyMarkConfig (HRef target) model propsList h).2 !! l = h !! l) /\
  (forall model channel format,
     leaves_store (utilFormatMixins model channel format)) /\
  (forall model channel format h mixins,
     (utilFormatMixins model channel format h).1 = Some mixins ->
     enumerable (utilFormatMixins model channel format h).2 mixins
       !! "properties" = None).

End Compile.

End Legend.

End Store.

(** ** A reference instance of the imported helpers

    The helpers the two files import are parameters of the development.
    To run the embedding on concrete inputs they are instantiated here. *)

Module Reference.

(** Modelled from the spec: a field binding is a measure when it references
    a field and is quantitative-like, that is neither nominal nor ordinal
    nor binned ([fielddef.ts] is not among the embedded sources). *)
Definition isMeasure (fieldDef : value) : bool :=
  match fieldDef with
  | VObj fd =>
      truthy (get fd "field")
      && negb (is_str (get fd "type") "nominal")
      && negb (is_str (get fd "type") ORDINAL)
      && negb (truthy (get fd "bin"))
  | _ => false
  end.

(** Modelled from the spec: a channel is bound when the encoding holds a
    field binding for it ([encoding.ts] is not among the embedded
    sources). *)
Definition has (encoding : obj) (channel : Channel) : bool :=
  match get encoding (channel_name channel) with
  | VObj fd => negb (is_undef (get fd "field"))
  | _ => false
  end.

(** Modelled from the spec: an encoding is aggregated when one of its bound
    channels carries an aggregate. *)
Definition isAggregate (encoding : obj) : bool :=
  existsb
    (fun channel =>
       has encoding channel &&
       match get encoding (channel_name channel) with
       | VObj fd => truthy (get fd "aggregate")
       | _ => false
       end)
    [X; Y; ROW; COLUMN; SHAPE; SIZE; COLOR; TEXT_CHANNEL; DETAIL; LABEL;
     PATH; ORDER].

#[export] Instance encodingHelpers : CompileConfig.EncodingHelpers := {|
  CompileConfig.isAggregate := isAggregate;
  CompileConfig.has := has;
  CompileConfig.isMeasure := isMeasure;
|}.

(** Modelled from the spec: the restricted fill and stroke configuration is
    merged in, each configured value in the form [{value: v}] that [symbols]
    itself uses for the color it falls back to. *)
Definition applyMarkConfig (properties : obj) (model : CompileLegend.UnitModel)
    (propsList : list string) : obj :=
  foldl
    (fun properties property =>
       let value := get (markConfig (CompileLegend.config model)) property in
       if negb (is_undef value)
       then <[property := VObj {[ "value" := value ]}]> properties
       else properties)
    properties propsList.

(** Modelled from the spec: an explicit format string becomes the [format]
    property. *)
Definition utilFormatMixins (model : CompileLegend.UnitModel)
    (channel : Channel) (format : value) : obj :=
  if is_undef format then ∅ else {[ "format" := format ]}.

#[export] Instance collaborators : CompileLegend.Collaborators := {|
  CompileLegend.fieldTitle := fun fieldDef => get fieldDef "field";
  CompileLegend.utilFormatMixins := utilFormatMixins;
  CompileLegend.timeFormat := fun _ _ => "%Y";
  CompileLegend.applyMarkConfig := applyMarkConfig;
  CompileLegend.FILL_STROKE_CONFIG :=
    ["fill"; "fillOpacity"; "stroke"; "strokeWidth"; "strokeDash";
     "strokeDashOffset"; "strokeOpacity"; "opacity"];
  CompileLegend.COLOR_LEGEND := "color_legend";
  CompileLegend.COLOR_LEGEND_LABEL := "color_legend_label";
|}.

(** Sample inputs. *)

(** x bound to a quantitative field, y to a nominal one. *)
Definition encoding_xq_yn : obj :=
  {[ "x" := VObj {[ "field" := VStr "a"; "type" := VStr "quantitative" ]};
     "y" := VObj {[ "field" := VStr "b"; "type" := VStr "nominal" ]} ]}.

(** A point chart whose color channel is bound to an ordinal field, with a
    legend request that overrides the labels group. *)
Definition ordinal_color_model : CompileLegend.UnitModel := {|
  CompileLegend.mark := POINT;
  CompileLegend.fieldDef := fun channel =>
    match channel with
    | COLOR => {[ "field" := VStr "a"; "type" := VStr "ordinal" ]}
    | _ => ∅
    end;
  CompileLegend.legend := fun channel =>
    match channel with
    | COLOR =>
        CompileLegend.LegendObj
          {[ "properties" :=
               VObj {[ "labels" :=
                         VObj {[ "fill" := VObj {[ "value" := VStr "red" ]} ]} ]} ]}
    | _ => CompileLegend.LegendAbsent
    end;
  CompileLegend.scaleName := fun name => name;
  CompileLegend.has := fun channel => bool_decide (channel = COLOR);
  CompileLegend.config := {| markConfig := {[ "filled" := VBool false ]} |};
|}.

(** A bar chart whose color channel is bound to a binned field, with a
    legend request that gives a format. *)
Definition binned_color_model : CompileLegend.UnitModel := {|
  CompileLegend.mark := BAR;
  CompileLegend.fieldDef := fun channel =>
    match channel with
    | COLOR => {[ "field" := VStr "a"; "type" := VStr "quantitative";
                  "bin" := VBool true ]}
    | _ => ∅
    end;
  CompileLegend.legend := fun channel =>
    match channel with
    | COLOR => CompileLegend.LegendObj {[ "format" := VStr ".2f" ]}
    | _ => CompileLegend.LegendAbsent
    end;
  CompileLegend.scaleName := fun name => name;
  CompileLegend.has := fun channel => bool_decide (channel = COLOR);
  CompileLegend.config := {| markConfig := {[ "filled" := VBool true ]} |};
|}.

(** A bar chart with a default legend on the size channel. *)
Definition size_model : CompileLegend.UnitModel := {|
  CompileLegend.mark := BAR;
  CompileLegend.fieldDef := fun channel =>
    match channel with
    | SIZE => {[ "field" := VStr "b"; "type" := VStr "quantitative" ]}
    | _ => ∅
    end;
  CompileLegend.legend := fun channel =>
    match channel with
    | SIZE => CompileLegend.LegendBool true
    | _ => CompileLegend.LegendAbsent
    end;
  CompileLegend.scaleName := fun name => name;
  CompileLegend.has := fun channel => bool_decide (channel = SIZE);
  CompileLegend.config :=
    {| markConfig := {[ "filled" := VBool true; "color" := VStr "#4682b4" ]} |};
|}.

(** The same helpers over the store. *)
Module InStore.
Import Store.

Definition isMeasure (h : heap) (fieldDef : hvalue) : bool :=
  match fieldDef with
  | HRef l =>
      let fd := object_at h l in
      Store.truthy (default HUndef (fd !! "field"))
      && negb (Store.is_str (default HUndef (fd !! "type")) "nominal")
      && negb (Store.is_str (default HUndef (fd !! "type")) ORDINAL)
      && negb (Store.truthy (default HUndef (fd !! "bin")))
  | _ => false
  end.

Definition has (h : heap) (encoding : hvalue) (channel : Channel) : bool :=
  match default HUndef (Store.enumerable h encoding !! channel_name channel) with
  | HRef l => negb (Store.is_undef (default HUndef (object_at h l !! "field")))
  | _ => false
  end.

Definition isAggregate (h : heap) (encoding : hvalue) : bool :=
  existsb
    (fun channel =>
       has h encoding channel &&
       match default HUndef (Store.enumerable h encoding !! channel_name channel) with
       | HRef l => Store.truthy (default HUndef (object_at h l !! "aggregate"))
       | _ => false
       end)
    [X; Y; ROW; COLUMN; SHAPE; SIZE; COLOR; TEXT_CHANNEL; DETAIL; LABEL;
     PATH; ORDER].

#[export] Instance encodingHelpers : Config.EncodingHelpers := {|
  Config.isAggregate := isAggregate;
  Config.has := has;
  Config.isMeasure := isMeasure;
|}.

Definition applyMarkConfig (properties : hvalue) (model : Legend.UnitModel)
    (propsList : list string) : M unit :=
  forEach
    (fun property =>
       do markConfig <- get_member (Legend.config model) "mark";
       do value <- get_member markConfig property;
       if negb (Store.is_undef value) then
         do wrapped <- new_object {[ "value" := value ]};
         set_member properties property wrapped
       else ret tt)
    propsList.

Definition utilFormatMixins (model : Legend.UnitModel) (channel : Channel)
    (format : hvalue) : M hvalue :=
  if Store.is_undef format then new_object ∅
  else new_object {[ "format" := format ]}.

#[export] Instance collaborators : Legend.Collaborators := {|
  Legend.fieldTitle := fun h fieldDef =>
    default HUndef (Store.enumerable h fieldDef !! "field");
  Legend.utilFormatMixins := utilFormatMixins;
  Legend.timeFormat := fun _ _ _ => "%Y";
  Legend.applyMarkConfig := applyMarkConfig;
  Legend.FILL_STROKE_CONFIG :=
    ["fill"; "fillOpacity"; "stroke"; "strokeWidth"; "strokeDash";
     "strokeDashOffset"; "strokeOpacity"; "opacity"];
  Legend.COLOR_LEGEND := "color_legend";
  Legend.COLOR_LEGEND_LABEL := "color_legend_label";
|}.

(** A store with a mark configuration, a field definition and a legend
    request, and a model that refers to them. *)
Definition sample_store : heap :=
  {[ 1%positive := {[ "mark" := HRef 2%positive ]};
     2%positive := {[ "filled" := HBool true; "color" := HStr "#4682b4" ]};
     3%positive := {[ "field" := HStr "a"; "type" := HStr "quantitative" ]};
     4%positive := {[ "title" := HStr "Size"; "properties" := HRef 5%positive ]};
     5%positive := {[ "symbols" := HRef 6%positive ]};
     6%positive := {[ "opacity" := HRef 7%positive ]};
     7%positive := {[ "value" := HNum (1 # 2) ]} ]}.

Definition sample_model : Legend.UnitModel := {|
  Legend.mark := BAR;
  Legend.fieldDef := fun _ => HRef 3%positive;
  Legend.legend := fun channel =>
    match channel with SIZE => HRef 4%positive | _ => HUndef end;
  Legend.scaleName := fun name => name;
  Legend.has := fun channel => bool_decide (channel = SIZE);
  Legend.config := HRef 1%positive;
|}.

(** A store and a model with a legend on an ordinal color field, for an
    unfilled mark, with overrides of two groups. *)
Definition color_store : heap :=
  {[ 1%positive := {[ "mark" := HRef 2%positive ]};
     2%positive := {[ "filled" := HBool false; "fill" := HStr "none";
                      "stroke" := HStr "black"; "opacity" := HNum (7 # 10) ]};
     3%positive := {[ "field" := HStr "a"; "type" := HStr "ordinal" ]};
     4%positive := {[ "orient" := HStr "left";
                      "properties" := HRef 5%positive ]};
     5%positive := {[ "title" := HRef 6%positive; "labels" := HRef 8%positive ]};
     6%positive := {[ "fontSize" := HRef 7%positive ]};
     7%positive := {[ "value" := HNum 12 ]};
     8%positive := {[ "fill" := HRef 9%positive ]};
     9%positive := {[ "value" := HStr "red" ]} ]}.

Definition color_model : Legend.UnitModel := {|
  Legend.mark := POINT;
  Legend.fieldDef := fun _ => HRef 3%positive;
  Legend.legend := fun channel =>
    match channel with COLOR => HRef 4%positive | _ => HBool false end;
  Legend.scaleName := fun name => name;
  Legend.has := fun channel => bool_decide (channel = COLOR);
  Legend.config := HRef 1%positive;
|}.

(** An encoding and a configuration in the store. *)
Definition config_store : heap :=
  {[ 1%positive := {[ "mark" := HRef 2%positive ]};
     2%positive := {[ "color" := HStr "#4682b4"; "orient" := HStr "vertical" ]};
     3%positive := {[ "x" := HRef 4%positive; "y" := HRef 5%positive ]};
     4%positive := {[ "field" := HStr "a"; "type" := HStr "quantitative" ]};
     5%positive := {[ "field" := HStr "b"; "type" := HStr "nominal" ]} ]}.

End InStore.

(** A model of the store as values: every object read from the store. *)
Definition model_value (h : Store.heap) (model : Store.Legend.UnitModel)
    : CompileLegend.UnitModel := {|
  CompileLegend.mark := Store.Legend.mark model;
  CompileLegend.fieldDef := fun channel =>
    enumerable (Store.reify 4 h (Store.Legend.fieldDef model channel));
  CompileLegend.legend := fun channel =>
    match Store.Legend.legend model channel with
    | Store.HBool b => CompileLegend.LegendBool b
    | Store.HRef l =>
        CompileLegend.LegendObj (enumerable (Store.reify 4 h (Store.HRef l)))
    | _ => CompileLegend.LegendAbsent
    end;
  CompileLegend.scaleName := Store.Legend.scaleName model;
  CompileLegend.has := Store.Legend.has model;
  CompileLegend.config :=
    {| markConfig :=
         enumerable
           (get (enumerable (Store.reify 5 h (Store.Legend.config model)))
                "mark") |};
|}.

End Reference.

(** ** Parts of the legend compiler, named *)

Module LegendParts.
Import CompileLegend.

Section Parts.
Context `{Collaborators}.

(** The object [symbols] holds just before the override is layered on top
    of it: the statements of [symbols] up to [extend]. *)
Definition symbols_before_override (fieldDef : obj) (model : UnitModel)
    (channel : Channel) : obj :=
  let symbols : obj := ∅ in
  let mark := mark model in
  let symbols := symbols_shape mark symbols in
  let filled := truthy (get (markConfig (config model)) "filled") in
  let symbols :=
    applyMarkConfig symbols model
      (if bool_decide (channel = COLOR)
       then without FILL_STROKE_CONFIG [if filled then "fill" else "stroke"]
       else FILL_STROKE_CONFIG) in
  let symbols :=
    if filled then <["strokeWidth" := VObj {[ "value" := VNum 0 ]}]> symbols
    else symbols in
  let value :=
    if has model COLOR && bool_decide (channel = COLOR) then
      if truthy (useColorLegendScale fieldDef) then
        VObj {[ "scale" := VStr (scaleName model (channel_name COLOR));
                "field" := VStr "data" ]}
      else VUndef
    else if truthy (get (CompileLegend.fieldDef model COLOR) "value") then
      VObj {[ "value" := get (CompileLegend.fieldDef model COLOR) "value" ]}
    else VUndef in
  if negb (is_undef value) then
    if filled then <["fill" := value]> symbols
    else <["stroke" := value]> symbols
  else if bool_decide (channel ≠ COLOR) then
    let k := if filled then "fill" else "stroke" in
    <[k := js_or (get symbols k)
             (VObj {[ "value" := get (markConfig (config model)) "color" ]})]>
      symbols
  else symbols.

(** The contract [applyMarkConfig] is named after: it assigns properties of
    the list it is given and leaves every other property of the set as it
    is. *)
Definition writes_listed_only : Prop :=
  forall (properties : obj) model propsList k,
    k ∉ propsList ->
    applyMarkConfig properties model propsList !! k = properties !! k.

(** [legend[k]] for a request that is there: [undefined] on a boolean. *)
Definition requested (legend : LegendRequest) (k : string) : value :=
  match legend with
  | LegendObj o => get o k
  | _ => VUndef
  end.

End Parts.

End LegendParts.

(** ** More sample inputs *)

Module Samples.

(** A bar chart with a legend on the size channel whose request gives a
    title, an orientation and overrides of the title and legend groups, the
    second one empty. *)
Definition titled_size_model : CompileLegend.UnitModel := {|
  CompileLegend.mark := BAR;
  CompileLegend.fieldDef := fun channel =>
    match channel with
    | SIZE => {[ "field" := VStr "b"; "type" := VStr "quantitative" ]}
    | _ => ∅
    end;
  CompileLegend.legend := fun channel =>
    match channel with
    | SIZE =>
        CompileLegend.LegendObj
          {[ "title" := VStr "Population"; "orient" := VStr "left";
             "format" := VStr "d";
             "properties" :=
               VObj {[ "title" := VObj {[ "fontSize" := VObj {[ "value" := VNum 12 ]} ]};
                       "legend" := VObj ∅ ]} ]}
    | _ => CompileLegend.LegendAbsent
    end;
  CompileLegend.scaleName := fun name => name;
  CompileLegend.has := fun channel => bool_decide (channel = SIZE);
  CompileLegend.config :=
    {| markConfig := {[ "filled" := VBool true; "color" := VStr "#4682b4";
                        "strokeWidth" := VNum 2 ]} |};
|}.

(** A point chart whose color channel holds a constant color, with a
    legend on the shape channel. *)
Definition constant_color_model : CompileLegend.UnitModel := {|
  CompileLegend.mark := POINT;
  CompileLegend.fieldDef := fun channel =>
    match channel with
    | COLOR => {[ "value" := VStr "red" ]}
    | SHAPE => {[ "field" := VStr "c"; "type" := VStr "nominal" ]}
    | _ => ∅
    end;
  CompileLegend.legend := fun channel =>
    match channel with
    | SHAPE => CompileLegend.LegendBool true
    | _ => CompileLegend.LegendAbsent
    end;
  CompileLegend.scaleName := fun name => name;
  CompileLegend.has := fun channel => bool_decide (channel = SHAPE);
  CompileLegend.config :=
    {| markConfig := {[ "filled" := VBool false; "stroke" := VStr "black";
                        "color" := VStr "#4682b4" ]} |};
|}.

(** A bar chart whose color channel is bound to a quantitative field, the
    mark configuration giving a fill. *)
Definition continuous_color_model : CompileLegend.UnitModel := {|
  CompileLegend.mark := BAR;
  CompileLegend.fieldDef := fun channel =>
    match channel with
    | COLOR => {[ "field" := VStr "a"; "type" := VStr "quantitative" ]}
    | _ => ∅
    end;
  CompileLegend.legend := fun channel =>
    match channel with
    | COLOR => CompileLegend.LegendBool false
    | _ => CompileLegend.LegendAbsent
    end;
  CompileLegend.scaleName := fun name => name;
  CompileLegend.has := fun channel => bool_decide (channel = COLOR);
  CompileLegend.config :=
    {| markConfig := {[ "filled" := VBool true; "fill" := VStr "blue";
                        "opacity" := VNum (1 # 2) ]} |};
|}.

(** A model for a line chart whose mark configuration is the one the
    mark-default resolver gives for an empty base configuration. *)
Definition resolved_line_model : CompileLegend.UnitModel := {|
  CompileLegend.mark := LINE;
  CompileLegend.fieldDef := fun channel =>
    match channel with
    | COLOR => {[ "field" := VStr "a"; "type" := VStr "nominal" ]}
    | _ => ∅
    end;
  CompileLegend.legend := fun channel =>
    match channel with
    | COLOR => CompileLegend.LegendBool true
    | _ => CompileLegend.LegendAbsent
    end;
  CompileLegend.scaleName := fun name => name;
  CompileLegend.has := fun channel => bool_decide (channel = COLOR);
  CompileLegend.config :=
    {| markConfig :=
         @CompileConfig.initMarkConfig Reference.encodingHelpers LINE
           Reference.encoding_xq_yn {| markConfig := ∅ |} |};
|}.

(** A model for a bar chart with a sized field, whose mark configuration
    is the one the mark-default resolver gives for a base configuration
    that sets a stroke width and no "filled". *)
Definition resolved_bar_model : CompileLegend.UnitModel := {|
  CompileLegend.mark := BAR;
  CompileLegend.fieldDef := fun channel =>
    match channel with
    | SIZE => {[ "field" := VStr "b"; "type" := VStr "quantitative" ]}
    | _ => ∅
    end;
  CompileLegend.legend := fun channel =>
    match channel with
    | SIZE => CompileLegend.LegendBool true
    | _ => CompileLegend.LegendAbsent
    end;
  CompileLegend.scaleName := fun name => name;
  CompileLegend.has := fun channel => bool_decide (channel = SIZE);
  CompileLegend.config :=
    {| markConfig :=
         @CompileConfig.initMarkConfig Reference.encodingHelpers BAR
           Reference.encoding_xq_yn
           {| markConfig := {[ "strokeWidth" := VNum 2 ]} |} |};
|}.

End Samples.

(** * Properties of the mark-default resolver *)

Module ConfigFacts.
Import CompileConfig.

Section Facts.
Context `{EncodingHelpers}.
Implicit Types (mark : Mark) (encoding : obj) (config : Config).

Lemma initMarkConfig_lookup mark encoding config property :
  initMarkConfig mark encoding config !! property =
    match markConfig config !! property with
    | Some v => Some v
    | None => derived mark encoding config !! property
    end.
Proof.
  unfold initMarkConfig, extend, enumerable. fold (derived mark encoding config).
  destruct (markConfig config !! property) as [v|] eqn:E.
  - by apply lookup_union_Some_l.
  - by rewrite lookup_union_r.
Qed.

(** A property the base configuration holds, whatever its value, is the
    one the result holds: [extend] copies it last. *)
Lemma initMarkConfig_base_wins mark encoding config property v :
  markConfig config !! property = Some v ->
  initMarkConfig mark encoding config !! property = Some v.
Proof. intros E. by rewrite initMarkConfig_lookup, E. Qed.

Lemma derived_filled mark encoding config :
  derived mark encoding config !! "filled" =
    if is_undef (get (markConfig config) "filled")
    then Some (VBool (bool_decide (mark ≠ POINT) && bool_decide (mark ≠ LINE)
                      && bool_decide (mark ≠ RULE)))
    else None.
Proof.
  unfold derived, rule; cbn.
  repeat (case_match; simplify_map_eq; try done).
Qed.

Lemma derived_opacity mark encoding config :
  derived mark encoding config !! "opacity" =
    if is_undef (get (markConfig config) "opacity")
       && bool_decide (mark ∈ [POINT; TICK; CIRCLE; SQUARE])
       && (negb (isAggregate encoding) || has encoding DETAIL)
    then Some (VNum (7 # 10)) else None.
Proof.
  unfold derived, rule; cbn.
  repeat (case_match; simplify_map_eq; try done).
Qed.

Lemma derived_orient mark encoding config :
  derived mark encoding config !! "orient" =
    if isMeasure (get encoding "x") && negb (isMeasure (get encoding "y"))
    then Some (VStr "horizontal")
    else if negb (isMeasure (get encoding "x")) && isMeasure (get encoding "y")
    then Some VUndef
    else None.
Proof.
  unfold derived, rule; cbn.
  repeat (case_match; simplify_map_eq; try done).
Qed.

Lemma derived_align mark encoding config :
  derived mark encoding config !! "align" =
    if is_undef (get (markConfig config) "align")
    then Some (VStr (if has encoding X then "center" else "right"))
    else None.
Proof.
  unfold derived, rule; cbn.
  repeat (case_match; simplify_map_eq; try done).
Qed.

Lemma absent_is_undef config property :
  markConfig config !! property = None ->
  is_undef (get (markConfig config) property) = true.
Proof. unfold get. by intros ->. Qed.

(** C3: for each of the four resolved properties, an explicit
    non-undefined value of the base configuration is exactly the value the
    resolved mark configuration holds, whatever the mark, the encoding and
    the rule that would otherwise fire. *)
Theorem explicit_value_preserved mark encoding config property v :
  property ∈ ["filled"; "opacity"; "orient"; "align"] ->
  markConfig config !! property = Some v ->
  v ≠ VUndef ->
  initMarkConfig mark encoding config !! property = Some v.
Proof. intros _ E _. by apply initMarkConfig_base_wins. Qed.

(** X23: when the base configuration has no "orient" property, a measure
    on x only resolves the orientation to "horizontal" and a measure on y
    only sets it to [undefined]; when both or neither of x and y is a
    measure the orientation is the one of the base configuration,
    untouched, whatever it is. *)
Theorem orient_resolution mark encoding config :
  let xIsMeasure := isMeasure (get encoding "x") in
  let yIsMeasure := isMeasure (get encoding "y") in
  let resolved := initMarkConfig mark encoding config in
  (markConfig config !! "orient" = None ->
     (xIsMeasure = true -> yIsMeasure = false ->
        resolved !! "orient" = Some (VStr "horizontal")) /\
     (xIsMeasure = false -> yIsMeasure = true ->
        resolved !! "orient" = Some VUndef)) /\
  (xIsMeasure = yIsMeasure ->
     resolved !! "orient" = markConfig config !! "orient").
Proof.
  cbn zeta. split.
  - intros E. split; intros Hx Hy;
      by rewrite initMarkConfig_lookup, E, derived_orient, Hx, Hy.
  - intros Hxy. rewrite initMarkConfig_lookup, derived_orient, Hxy.
    destruct (markConfig config !! "orient"); [done|].
    by destruct (isMeasure (get encoding "y")).
Qed.

(** X21: when the base configuration has no "filled" property, the
    resolved value is [false] for point, line and rule marks and [true] for
    every other mark. *)
Theorem filled_default mark encoding config :
  markConfig config !! "filled" = None ->
  initMarkConfig mark encoding config !! "filled" =
    Some (VBool (bool_decide (mark ∉ [POINT; LINE; RULE]))).
Proof.
  intros E.
  rewrite initMarkConfig_lookup, E, derived_filled, (absent_is_undef _ _ E).
  by destruct mark.
Qed.

(** X22: when the base configuration has no "opacity" property, a point,
    tick, circle or square mark gets opacity 0.7 exactly when the encoding
    is not aggregated or binds detail, and no opacity otherwise; a mark
    outside that set never gets an opacity default: its opacity is the one
    of the base configuration. *)
Theorem opacity_default mark encoding config :
  let resolved := initMarkConfig mark encoding config in
  (mark ∈ [POINT; TICK; CIRCLE; SQUARE] ->
   markConfig config !! "opacity" = None ->
     resolved !! "opacity" =
       if negb (isAggregate encoding) || has encoding DETAIL
       then Some (VNum (7 # 10)) else None) /\
  (mark ∉ [POINT; TICK; CIRCLE; SQUARE] ->
     resolved !! "opacity" = markConfig config !! "opacity").
Proof.
  cbn zeta. split.
  - intros Hm E.
    rewrite initMarkConfig_lookup, E, derived_opacity, (absent_is_undef _ _ E).
    by rewrite bool_decide_eq_true_2.
  - intros Hm. rewrite initMarkConfig_lookup, derived_opacity.
    rewrite (bool_decide_eq_false_2 _ Hm), andb_false_r.
    by destruct (markConfig config !! "opacity").
Qed.

End Facts.

(** C4: the base configuration [{orient: undefined}] has no explicit
    orientation.  With a measure on x only the "orient" rule derives
    "horizontal", and the resolved orientation is [undefined] all the
    same: [extend] copies the property of the base configuration, which
    holds [undefined], over the derived value. *)
Theorem orient_undefined_not_resolved :
  let config := {| markConfig := {[ "orient" := VUndef ]} |} in
  let encoding := Reference.encoding_xq_yn in
  is_undef (get (markConfig config) "orient") = true /\
  Reference.isMeasure (get encoding "x") = true /\
  Reference.isMeasure (get encoding "y") = false /\
  @derived Reference.encodingHelpers BAR encoding config !! "orient"
    = Some (VStr "horizontal") /\
  @initMarkConfig Reference.encodingHelpers BAR encoding config !! "orient"
    = Some VUndef.
Proof. cbn zeta. repeat split; vm_compute; reflexivity. Qed.

(** C5: the base configuration [{filled: undefined}] has no explicit
    "filled" value.  For a bar mark the "filled" rule fires and derives
    [true], and the resolved value is [undefined] all the same: [extend]
    copies the property of the base configuration over the derived
    default. *)
Theorem filled_undefined_not_defaulted :
  let config := {| markConfig := {[ "filled" := VUndef ]} |} in
  is_undef (get (markConfig config) "filled") = true /\
  @derived Reference.encodingHelpers BAR ∅ config !! "filled"
    = Some (VBool true) /\
  @initMarkConfig Reference.encodingHelpers BAR ∅ config !! "filled"
    = Some VUndef.
Proof. cbn zeta. repeat split; vm_compute; reflexivity. Qed.

(** C6: the base configuration [{opacity: undefined}] has no explicit
    opacity.  For a circle mark and an encoding that is not aggregated the
    "opacity" rule fires and derives 0.7, and the resolved opacity is
    [undefined] all the same: [extend] copies the property of the base
    configuration over the derived default. *)
Theorem opacity_undefined_not_defaulted :
  let config := {| markConfig := {[ "opacity" := VUndef ]} |} in
  is_undef (get (markConfig config) "opacity") = true /\
  Reference.isAggregate ∅ = false /\
  @derived Reference.encodingHelpers CIRCLE ∅ config !! "opacity"
    = Some (VNum (7 # 10)) /\
  @initMarkConfig Reference.encodingHelpers CIRCLE ∅ config !! "opacity"
    = Some VUndef.
Proof. cbn zeta. repeat split; vm_compute; reflexivity. Qed.

Lemma explicit_value_preserved_witness :
  @initMarkConfig Reference.encodingHelpers BAR Reference.encoding_xq_yn
    {| markConfig := {[ "orient" := VStr "vertical" ]} |} !! "orient"
  = Some (VStr "vertical").
Proof.
  apply (@explicit_value_preserved Reference.encodingHelpers BAR Reference.encoding_xq_yn
           {| markConfig := {[ "orient" := VStr "vertical" ]} |}).
  - vm_compute. set_solver.
  - vm_compute. reflexivity.
  - discriminate.
Defined.

Lemma orient_resolution_witness :
  @initMarkConfig Reference.encodingHelpers BAR Reference.encoding_xq_yn
    {| markConfig := ∅ |} !! "orient" = Some (VStr "horizontal").
Proof.
  apply (@orient_resolution Reference.encodingHelpers BAR Reference.encoding_xq_yn
           {| markConfig := ∅ |}); vm_compute; reflexivity.
Defined.

Lemma filled_default_witness :
  @initMarkConfig Reference.encodingHelpers LINE ∅ {| markConfig := ∅ |} !! "filled"
  = Some (VBool false).
Proof.
  apply (@filled_default Reference.encodingHelpers LINE ∅ {| markConfig := ∅ |}).
  vm_compute. reflexivity.
Defined.

Lemma opacity_default_witness :
  @initMarkConfig Reference.encodingHelpers CIRCLE ∅ {| markConfig := ∅ |} !! "opacity"
  = Some (VNum (7 # 10)).
Proof.
  refine (proj1 (@opacity_default Reference.encodingHelpers CIRCLE ∅
                   {| markConfig := ∅ |}) _ _).
  - set_solver.
  - vm_compute. reflexivity.
Defined.

End ConfigFacts.

(** * Properties of the legend compiler *)

Module LegendFacts.
Import CompileLegend.

Section Facts.
Context `{Collaborators}.
Implicit Types (model : UnitModel) (channel : Channel) (def : obj).

(** ** Loops *)

Lemma forEach_invariant {S A} (P : S -> Prop) (body : S -> A -> option S) xs :
  (forall s x s', body s x = Some s' -> P s -> P s') ->
  forall s s', forEach body s xs = Some s' -> P s -> P s'.
Proof.
  intros Hbody. induction xs as [|x xs IH]; intros s s'; cbn.
  - by intros [= ->].
  - destruct (body s x) as [s1|] eqn:E; cbn; [|done].
    intros Hrun Hs. eapply IH; eauto.
Qed.

Lemma forEach_total {S A} (P : S -> Prop) (body : S -> A -> option S) xs :
  (forall s x, x ∈ xs -> P s -> exists s', body s x = Some s' /\ P s') ->
  forall s, P s -> exists s', forEach body s xs = Some s' /\ P s'.
Proof.
  induction xs as [|x xs IH]; intros Hbody s Hs; cbn.
  - eauto.
  - destruct (Hbody s x) as (s1 & -> & Hs1); [left|done|]. cbn.
    apply IH; [|done]. intros s2 y Hy. apply Hbody. by right.
Qed.

(** ** Reading a request *)

Lemma legend_get_truthy legend k :
  legend_truthy legend = true -> is_Some (legend_get legend k).
Proof. destruct legend; cbn; eauto. done. Qed.

Lemma truthy_get_prop v k : truthy v = true -> is_Some (get_prop v k).
Proof. destruct v; cbn; eauto; done. Qed.

Lemma js_or_obj_truthy v : truthy (js_or v (VObj ∅)) = true.
Proof. unfold js_or. by destruct (truthy v) eqn:E. Qed.

(** ** One step of each loop *)

Lemma copy_property_other legend def property def' k :
  copy_property legend def property = Some def' ->
  k ≠ property -> def' !! k = def !! k.
Proof.
  unfold copy_property. destruct (legend_get legend property) as [v|]; cbn; [|done].
  intros [= <-] Hk. destruct (negb (is_undef v)); [|done].
  by rewrite lookup_insert_ne.
Qed.

Lemma add_group_other fieldDef props model channel def group def' k :
  add_group fieldDef props model channel def group = Some def' ->
  k ≠ "properties" -> def' !! k = def !! k.
Proof.
  unfold add_group. destruct (get_prop props group) as [o|]; cbn; [|done].
  destruct (has_keys _); [|by intros [= <-]].
  destruct (js_or _ _); try done.
  intros [= <-] Hk. by rewrite lookup_insert_ne.
Qed.

Lemma add_group_same fieldDef props model channel def group def' :
  add_group fieldDef props model channel def group = Some def' ->
  group_of def' group =
    if has_keys (group_value fieldDef props model channel group)
    then Some (group_value fieldDef props model channel group)
    else group_of def group.
Proof.
  unfold add_group, group_value.
  destruct (get_prop props group) as [o|]; cbn; [|done].
  destruct (has_keys _); [|by intros [= <-]].
  destruct (js_or _ _) eqn:E; try done.
  intros [= <-]. unfold group_of, get. rewrite lookup_insert_eq. cbn.
  by rewrite lookup_insert_eq.
Qed.

Lemma add_group_diff fieldDef props model channel def group def' g :
  add_group fieldDef props model channel def group = Some def' ->
  g ≠ group -> group_of def' g = group_of def g.
Proof.
  unfold add_group.
  destruct (get_prop props group) as [o|]; cbn; [|done].
  destruct (has_keys _); [|by intros [= <-]].
  destruct (js_or _ _) as [| | | | |p] eqn:E; try done.
  intros [= <-] Hg. unfold group_of at 1. unfold get at 1.
  rewrite lookup_insert_eq; cbn. rewrite lookup_insert_ne by done.
  unfold group_of. unfold js_or in E.
  destruct (truthy (get def "properties")) eqn:T.
  - by rewrite E.
  - injection E as <-. rewrite lookup_empty.
    by destruct (get def "properties").
Qed.

Lemma add_group_total fieldDef props model channel def group :
  truthy props = true ->
  (truthy (get def "properties") = true -> exists p, get def "properties" = VObj p) ->
  exists def', add_group fieldDef props model channel def group = Some def'
    /\ (truthy (get def' "properties") = true ->
          exists p, get def' "properties" = VObj p).
Proof.
  intros Hprops Hdef. unfold add_group.
  destruct (truthy_get_prop props group Hprops) as [o ->]; cbn.
  destruct (has_keys _); [|eauto].
  unfold js_or. destruct (truthy (get def "properties")) eqn:T.
  - destruct (Hdef eq_refl) as [p ->]. eexists; split; [done|].
    intros _. unfold get. rewrite lookup_insert_eq. eauto.
  - eexists; split; [done|].
    intros _. unfold get. rewrite lookup_insert_eq. eauto.
Qed.

(** ** The stages of [parseLegend] *)

Lemma parseLegend_inv model channel def :
  parseLegend model channel = Some def ->
  exists d0 t mixins def1 props,
    getLegendDefWithScale model channel = VObj d0 /\
    title (legend model channel) (fieldDef model channel) = Some t /\
    formatMixins (legend model channel) model channel = Some mixins /\
    forEach (copy_property (legend model channel))
            (extend (<["title" := t]> d0) (VObj mixins)) ["orient"; "values"]
      = Some def1 /\
    properties_of (legend model channel) = Some props /\
    forEach (add_group (fieldDef model channel) props model channel) def1
            ["title"; "symbols"; "legend"; "labels"] = Some def.
Proof.
  unfold parseLegend. intros Hrun.
  apply bind_Some in Hrun as (t & Ht & Hrun).
  apply bind_Some in Hrun as (d1 & Hd1 & Hrun).
  apply bind_Some in Hrun as (mixins & Hmix & Hrun).
  apply bind_Some in Hrun as (def1 & Hdef1 & Hrun).
  apply bind_Some in Hrun as (props & Hprops & Hrun).
  destruct (getLegendDefWithScale model channel) as [| | | | |d0]; try done.
  injection Hd1 as <-.
  by exists d0, t, mixins, def1, props.
Qed.

Lemma properties_of_truthy legend props :
  properties_of legend = Some props -> truthy props = true.
Proof.
  unfold properties_of.
  destruct (if not_boolean legend then _ else _) as [r|]; cbn; [|done].
  intros [= <-]. apply js_or_obj_truthy.
Qed.

Lemma getLegendDefWithScale_keys model channel d0 k :
  getLegendDefWithScale model channel = VObj d0 ->
  is_Some (d0 !! k) -> k ∈ legend_keys.
Proof.
  unfold getLegendDefWithScale, legend_keys.
  destruct channel; try done; try destruct (truthy (get _ "filled"));
    intros [= <-]; rewrite lookup_singleton_is_Some; intros <-; set_solver.
Qed.

Lemma formatMixins_formatting_only legend model channel mixins k :
  formatting_only model channel ->
  formatMixins legend model channel = Some mixins ->
  k ∈ legend_keys -> mixins !! k = None.
Proof.
  intros Hf. unfold formatMixins.
  destruct (truthy _); [by intros [= <-] _|].
  destruct (if not_boolean legend then _ else _) as [f|]; cbn; [|done].
  intros [= <-]. apply Hf.
Qed.

(** A property the loops do not write is the one of the scale definition,
    unless the format mixins define it. *)
Lemma parseLegend_lookup model channel def d0 k :
  parseLegend model channel = Some def ->
  getLegendDefWithScale model channel = VObj d0 ->
  k ∉ ["title"; "orient"; "values"; "properties"] ->
  (forall mixins, formatMixins (legend model channel) model channel = Some mixins ->
                  mixins !! k = None) ->
  def !! k = d0 !! k.
Proof.
  intros Hp Hd Hk Hm.
  destruct (parseLegend_inv _ _ _ Hp) as (d0' & t & mixins & def1 & props & Hd' & _ & Hmix & H1 & _ & H2).
  rewrite Hd in Hd'. injection Hd' as <-.
  transitivity (def1 !! k).
  { refine (forEach_invariant (fun d => d !! k = def1 !! k) _ _ _ _ _ H2 eq_refl).
    intros s x s' Hs <-. eapply add_group_other; [done|]. set_solver. }
  transitivity (extend (<["title" := t]> d0) (VObj mixins) !! k).
  { revert H1. cbn. destruct (copy_property _ _ "orient") as [da|] eqn:Ea; cbn; [|done].
    destruct (copy_property _ da "values") as [db|] eqn:Eb; cbn; [|done].
    intros [= <-].
    rewrite (copy_property_other _ _ _ _ k Eb) by set_solver.
    rewrite (copy_property_other _ _ _ _ k Ea) by set_solver. done. }
  unfold extend; cbn. rewrite lookup_union_r by eauto.
  rewrite lookup_insert_ne; [done|set_solver].
Qed.

(** Every property of a compiled legend is one the compiler writes or one
    of the format mixins. *)
Lemma parseLegend_dom model channel def k :
  parseLegend model channel = Some def ->
  is_Some (def !! k) ->
  k ∈ legend_keys \/
  exists mixins, formatMixins (legend model channel) model channel = Some mixins
                 /\ is_Some (mixins !! k).
Proof.
  intros Hp Hk.
  destruct (decide (k ∈ legend_keys)) as [|Hn]; [by left|right].
  destruct (parseLegend_inv _ _ _ Hp) as (d0 & t & mixins & def1 & props & Hd & _ & Hmix & H1 & _ & H2).
  exists mixins; split; [done|].
  destruct (mixins !! k) as [v|] eqn:Em; [eauto|]. exfalso.
  rewrite (parseLegend_lookup _ _ _ d0 k Hp Hd) in Hk.
  - apply Hn. by eapply getLegendDefWithScale_keys.
  - unfold legend_keys in Hn. set_solver.
  - intros m' Hm'. congruence.
Qed.

(** The group [parseLegend] stores is the value its loop computes. *)
Lemma parseLegend_group model channel def props group :
  parseLegend model channel = Some def ->
  properties_of (legend model channel) = Some props ->
  group ∈ ["title"; "symbols"; "legend"; "labels"] ->
  has_keys (group_value (fieldDef model channel) props model channel group) = true ->
  group_of def group =
    Some (group_value (fieldDef model channel) props model channel group).
Proof.
  intros Hp Hprops Hg Hk.
  destruct (parseLegend_inv _ _ _ Hp) as (d0 & t & mixins & def1 & props' & _ & _ & _ & _ & Hprops' & H2).
  rewrite Hprops in Hprops'. injection Hprops' as <-.
  revert H2. cbn.
  destruct (add_group _ _ _ _ def1 "title") as [da|] eqn:Ea; cbn; [|done].
  destruct (add_group _ _ _ _ da "symbols") as [db|] eqn:Eb; cbn; [|done].
  destruct (add_group _ _ _ _ db "legend") as [dc|] eqn:Ec; cbn; [|done].
  destruct (add_group _ _ _ _ dc "labels") as [dd|] eqn:Ed; cbn; [|done].
  intros [= <-].
  pose proof (add_group_same _ _ _ _ _ _ _ Ea) as Sa.
  pose proof (add_group_same _ _ _ _ _ _ _ Eb) as Sb.
  pose proof (add_group_same _ _ _ _ _ _ _ Ec) as Sc.
  pose proof (add_group_same _ _ _ _ _ _ _ Ed) as Sd.
  repeat (apply elem_of_cons in Hg as [->|Hg]); [..|by apply elem_of_nil in Hg];
    rewrite Hk in *.
  - rewrite (add_group_diff _ _ _ _ _ _ _ "title" Ed) by done.
    rewrite (add_group_diff _ _ _ _ _ _ _ "title" Ec) by done.
    by rewrite (add_group_diff _ _ _ _ _ _ _ "title" Eb).
  - rewrite (add_group_diff _ _ _ _ _ _ _ "symbols" Ed) by done.
    by rewrite (add_group_diff _ _ _ _ _ _ _ "symbols" Ec).
  - by rewrite (add_group_diff _ _ _ _ _ _ _ "legend" Ed).
  - done.
Qed.

(** [parseLegend] returns for a legend-eligible channel with a truthy
    request, under the contract of the format mixins. *)
Lemma parseLegend_total model channel :
  channel ∈ [COLOR; SIZE; SHAPE] ->
  legend_truthy (legend model channel) = true ->
  formatting_only model channel ->
  is_Some (parseLegend model channel).
Proof.
  intros Hc Ht Hf.
  assert (exists t, title (legend model channel) (fieldDef model channel) = Some t)
    as [t Htitle].
  { unfold title. destruct (not_boolean _); cbn; [|eauto].
    destruct (legend_get_truthy _ "title" Ht) as [v ->]. cbn. eauto. }
  assert (exists d0, getLegendDefWithScale model channel = VObj d0
                     /\ d0 !! "properties" = None) as (d0 & Hd0 & Hd0p).
  { unfold getLegendDefWithScale.
    repeat (apply elem_of_cons in Hc as [->|Hc]); [..|by apply elem_of_nil in Hc];
      try destruct (truthy (get _ "filled"));
      eexists; (split; [done|]); by rewrite lookup_singleton_ne. }
  assert (exists mixins, formatMixins (legend model channel) model channel = Some mixins)
    as [mixins Hmix].
  { unfold formatMixins. destruct (truthy _); [eauto|].
    destruct (not_boolean _); cbn; [|eauto].
    destruct (legend_get_truthy _ "format" Ht) as [v ->]. cbn. eauto. }
  assert (exists props, properties_of (legend model channel) = Some props)
    as [props Hprops].
  { unfold properties_of. destruct (not_boolean _); cbn; [|eauto].
    destruct (legend_get_truthy _ "properties" Ht) as [v ->]. cbn. eauto. }
  set (defm := extend (<["title" := t]> d0) (VObj mixins)).
  assert (defm !! "properties" = None) as Hdefm.
  { unfold defm, extend; cbn. rewrite lookup_union_r.
    - by rewrite lookup_insert_ne.
    - eapply formatMixins_formatting_only; eauto. unfold legend_keys. set_solver. }
  destruct (forEach_total (fun d : obj => d !! "properties" = None)
              (copy_property (legend model channel)) ["orient"; "values"])
    with (s := defm) as (def1 & Hdef1 & Hdef1p); [|done|].
  { intros s x Hx Hs. unfold copy_property.
    destruct (legend_get_truthy _ x Ht) as [v ->]. cbn.
    eexists; split; [done|]. destruct (negb (is_undef v)); [|done].
    rewrite lookup_insert_ne; [done|]. set_solver. }
  destruct (forEach_total
              (fun d : obj => truthy (get d "properties") = true ->
                              exists p, get d "properties" = VObj p)
              (add_group (fieldDef model channel) props model channel)
              ["title"; "symbols"; "legend"; "labels"])
    with (s := def1) as (def & Hdef & _).
  { intros s x _ Hs. apply add_group_total; [|done].
    by eapply properties_of_truthy. }
  { unfold get. by rewrite Hdef1p. }
  unfold parseLegend. rewrite Htitle, Hd0, Hmix, Hprops. cbn [mbind option_bind].
  fold defm. rewrite Hdef1. cbn [mbind option_bind]. rewrite Hdef. eauto.
Qed.

(** ** The scale a color legend binds to *)

Lemma useColorLegendScale_truthy fieldDef :
  truthy (useColorLegendScale fieldDef) =
    is_str (get fieldDef "type") ORDINAL
    || truthy (get fieldDef "bin") || truthy (get fieldDef "timeUnit").
Proof.
  unfold useColorLegendScale, js_or. cbn [truthy].
  destruct (is_str _ _); cbn; [done|].
  by destruct (truthy (get fieldDef "bin")) eqn:E; cbn; rewrite ?E.
Qed.

(** C2: the color legend binds to the ordinal color-legend scale exactly
    when the field is ordinal, binned or carries a time unit, and to the
    color scale otherwise; the reference sits under "fill" when the mark
    configuration's [filled] is truthy and under "stroke" otherwise, in
    the scale definition and in the compiled legend. *)
Theorem color_legend_scale model :
  let fieldDef := fieldDef model COLOR in
  let ordinalLike :=
    is_str (get fieldDef "type") ORDINAL
    || truthy (get fieldDef "bin") || truthy (get fieldDef "timeUnit") in
  let scale :=
    VStr (scaleName model
            (if ordinalLike then COLOR_LEGEND else channel_name COLOR)) in
  let filled := truthy (get (markConfig (config model)) "filled") in
  getLegendDefWithScale model COLOR =
    VObj {[ (if filled then "fill" else "stroke") := scale ]} /\
  (formatting_only model COLOR ->
   forall def, parseLegend model COLOR = Some def ->
     def !! (if filled then "fill" else "stroke") = Some scale /\
     def !! (if filled then "stroke" else "fill") = None).
Proof.
  cbn zeta.
  assert (getLegendDefWithScale model COLOR =
          VObj {[ (if truthy (get (markConfig (config model)) "filled")
                   then "fill" else "stroke") :=
                  VStr (scaleName model
                    (if is_str (get (fieldDef model COLOR) "type") ORDINAL
                        || truthy (get (fieldDef model COLOR) "bin")
                        || truthy (get (fieldDef model COLOR) "timeUnit")
                     then COLOR_LEGEND else channel_name COLOR)) ]}) as Hd.
  { unfold getLegendDefWithScale. rewrite useColorLegendScale_truthy.
    by destruct (truthy (get _ "filled")). }
  split; [done|]. intros Hf def Hp. split.
  - rewrite (parseLegend_lookup _ _ _ _ _ Hp Hd).
    + apply lookup_singleton_eq.
    + destruct (truthy (get _ "filled")); set_solver.
    + intros mixins Hm. eapply formatMixins_formatting_only; eauto.
      unfold legend_keys. destruct (truthy (get _ "filled")); set_solver.
  - rewrite (parseLegend_lookup _ _ _ _ _ Hp Hd).
    + apply lookup_singleton_ne. by destruct (truthy (get _ "filled")).
    + destruct (truthy (get _ "filled")); set_solver.
    + intros mixins Hm. eapply formatMixins_formatting_only; eauto.
      unfold legend_keys. destruct (truthy (get _ "filled")); set_solver.
Qed.

(** ** Format mixins *)

(** C7: for a binned field the format mixins are empty, so that the
    compiled legend holds only the properties the compiler writes itself
    and none that derives from a format, whatever format the request
    gives; for a field that is not binned the resolver is called with the
    format of the request ([undefined] for a boolean request). *)
Theorem binned_field_has_no_format model channel :
  let fieldDef := fieldDef model channel in
  (truthy (get fieldDef "bin") = true ->
     (forall legend, formatMixins legend model channel = Some ∅) /\
     (forall def k, parseLegend model channel = Some def ->
                    is_Some (def !! k) -> k ∈ legend_keys)) /\
  (truthy (get fieldDef "bin") = false ->
     (forall o, formatMixins (LegendObj o) model channel =
                  Some (utilFormatMixins model channel (get o "format"))) /\
     (forall b, formatMixins (LegendBool b) model channel =
                  Some (utilFormatMixins model channel VUndef))).
Proof.
  cbn zeta. split; intros Hbin.
  - assert (forall legend, formatMixins legend model channel = Some ∅) as Hm.
    { intros legend. unfold formatMixins. by rewrite Hbin. }
    split; [done|]. intros def k Hp Hk.
    destruct (parseLegend_dom _ _ _ _ Hp Hk) as [|(mixins & Hmix & Hin)]; [done|].
    rewrite Hm in Hmix. injection Hmix as <-.
    rewrite lookup_empty in Hin. by destruct Hin.
  - split; intros; unfold formatMixins; by rewrite Hbin.
Qed.

(** ** The legend mapping *)

Lemma channel_name_inj c1 c2 : channel_name c1 = channel_name c2 -> c1 = c2.
Proof. by destruct c1, c2. Qed.

Lemma component_run model chans :
  forall acc out,
    forEach (component_step model) acc chans = Some out ->
    forall channel,
      (channel ∈ chans /\ legend_truthy (legend model channel) = true ->
         out !! channel_name channel = parseLegend model channel
         /\ is_Some (parseLegend model channel)) /\
      (~ (channel ∈ chans /\ legend_truthy (legend model channel) = true) ->
         out !! channel_name channel = acc !! channel_name channel).
Proof.
  induction chans as [|c chans IH]; intros acc out; cbn [forEach].
  - intros [= <-] channel. split; [|done]. intros [Hc _]. by apply elem_of_nil in Hc.
  - intros Hrun. apply bind_Some in Hrun as (acc1 & Hstep & Hrun).
    intros channel. destruct (IH _ _ Hrun channel) as [Hin Hnot].
    destruct (decide (channel ∈ chans
                      /\ legend_truthy (legend model channel) = true)) as [Hc|Hc].
    { split; [intros _; by apply Hin|]. intros Hn. destruct Hn.
      destruct Hc. split; [by right|done]. }
    rewrite (Hnot Hc). clear Hin Hnot. unfold component_step in Hstep.
    destruct (decide (channel = c)) as [->|Hne].
    + destruct (legend_truthy (legend model c)) eqn:Ht.
      * apply bind_Some in Hstep as (def & Hdef & [= <-]).
        rewrite lookup_insert_eq, Hdef. split; [eauto|].
        intros Hn. destruct Hn. split; [by left|done].
      * injection Hstep as <-. split; [|done]. by intros [_ ?].
    + assert (acc1 !! channel_name channel = acc !! channel_name channel) as ->.
      { destruct (legend_truthy (legend model c)).
        - apply bind_Some in Hstep as (def & Hdef & [= <-]).
          apply lookup_insert_ne. intros Hn. by apply channel_name_inj in Hn.
        - by injection Hstep as <-. }
      split; [|done]. intros [Hin Ht]. destruct Hc.
      apply elem_of_cons in Hin as [?|?]; done.
Qed.

Lemma component_run_keys model chans :
  forall acc out,
    forEach (component_step model) acc chans = Some out ->
    forall k, k ∉ channel_name <$> chans -> out !! k = acc !! k.
Proof.
  induction chans as [|c chans IH]; intros acc out; cbn [forEach].
  - by intros [= <-].
  - intros Hrun k Hk. apply bind_Some in Hrun as (acc1 & Hstep & Hrun).
    rewrite fmap_cons, not_elem_of_cons in Hk. destruct Hk as [Hne Hk].
    rewrite (IH _ _ Hrun k Hk). unfold component_step in Hstep.
    destruct (legend_truthy (legend model c)).
    + apply bind_Some in Hstep as (def & _ & [= <-]). by apply lookup_insert_ne.
    + by injection Hstep as <-.
Qed.

(** C8: the mapping [parseLegendComponent] returns has an entry for a
    channel exactly when the channel is color, size or shape and its
    legend request is truthy, the entry being the compiled legend, and it
    has no entry under another key; and the function returns under the
    contract of the format mixins. *)
Theorem legend_component_entries model :
  (forall out, parseLegendComponent model = Some out ->
     (forall channel,
        (is_Some (out !! channel_name channel) <->
           channel ∈ [COLOR; SIZE; SHAPE]
           /\ legend_truthy (legend model channel) = true) /\
        (is_Some (out !! channel_name channel) ->
           out !! channel_name channel = parseLegend model channel)) /\
     (forall k, is_Some (out !! k) ->
        k ∈ channel_name <$> [COLOR; SIZE; SHAPE])) /\
  ((forall channel, formatting_only model channel) ->
     is_Some (parseLegendComponent model)).
Proof.
  split.
  - intros out Hout. split.
    2:{ intros k Hk.
        destruct (decide (k ∈ channel_name <$> [COLOR; SIZE; SHAPE])) as [|Hn];
          [done|].
        rewrite (component_run_keys model _ _ _ Hout k Hn), lookup_empty in Hk.
        by destruct Hk. }
    intros channel.
    destruct (component_run model _ _ _ Hout channel) as [Hin Hnot].
    destruct (decide (channel ∈ [COLOR; SIZE; SHAPE]
                      /\ legend_truthy (legend model channel) = true)) as [Hc|Hc].
    + destruct (Hin Hc) as [-> Hsome]. by split.
    + rewrite (Hnot Hc), lookup_empty. split; [split|]; intros Hx; try done;
        by destruct Hx.
  - intros Hf. unfold parseLegendComponent.
    destruct (forEach_total (fun _ : gmap string obj => True)
                (component_step model) [COLOR; SIZE; SHAPE]) with (s := (∅ : gmap string obj))
      as (out & Hout & _); [|done|by rewrite Hout].
    intros acc c Hc _. unfold component_step.
    destruct (legend_truthy (legend model c)) eqn:Ht; [|eauto].
    destruct (parseLegend_total model c Hc Ht (Hf c)) as [def ->]. cbn. eauto.
Qed.

(** ** The symbols group *)

Lemma keys_nonempty (o : obj) k :
  is_Some (o !! k) -> bool_decide (0 < length (keys (VObj o)))%nat = true.
Proof.
  intros Hk. apply bool_decide_eq_true_2. unfold keys; cbn.
  assert (k ∈ elements (dom o)) as Hin by by apply elem_of_elements, elem_of_dom.
  destruct (elements (dom o)); [by apply elem_of_nil in Hin|cbn; lia].
Qed.

Lemma keys_empty (o : obj) :
  bool_decide (0 < length (keys (VObj o)))%nat = false -> o = ∅.
Proof.
  intros Hk. apply bool_decide_eq_false_1 in Hk. unfold keys in Hk; cbn in Hk.
  apply map_eq; intros k. rewrite lookup_empty.
  destruct (o !! k) eqn:E; [|done]. exfalso. apply Hk.
  assert (k ∈ elements (dom o)) as Hin.
  { apply elem_of_elements, elem_of_dom. eauto. }
  destruct (elements (dom o)); [by apply elem_of_nil in Hin|cbn; lia].
Qed.

Lemma extend_lookup_is_Some (o : obj) x k :
  is_Some (o !! k) -> is_Some (extend o x !! k).
Proof.
  intros [v Hv]. unfold extend.
  destruct (enumerable x !! k) as [w|] eqn:E.
  - exists w. by apply lookup_union_Some_l.
  - exists v. by rewrite lookup_union_r.
Qed.

(** The symbols group is the generated one with the override layered on
    top: the override wins on a common key, every other key of either
    side is kept. *)
Lemma symbols_override_merged fieldDef symbolsSpec model channel :
  let generated := enumerable (symbols fieldDef VUndef model channel) in
  let merged := extend generated (js_or symbolsSpec (VObj ∅)) in
  symbols fieldDef symbolsSpec model channel =
    if bool_decide (0 < length (keys (VObj merged)))%nat then VObj merged
    else VUndef.
Proof.
  cbn zeta. unfold symbols.
  set (g := if negb (is_undef _) then _ else _).
  assert (extend g (js_or VUndef (VObj ∅)) = g) as ->.
  { unfold extend, js_or; cbn. apply (left_id_L ∅ (∪)). }
  destruct (bool_decide (0 < length (keys (VObj g)))%nat) eqn:E; cbn [enumerable].
  - done.
  - by rewrite (keys_empty _ E).
Qed.

Lemma symbols_group_value fieldDef props model channel :
  group_value fieldDef props model channel "symbols" =
    symbols fieldDef (default VUndef (get_prop props "symbols")) model channel.
Proof. done. Qed.

(** The object [symbols] builds for a legend that is not the color
    legend, before the override is layered on top. *)
Lemma symbols_not_color fieldDef symbolsSpec model channel :
  channel ≠ COLOR ->
  let filled := truthy (get (markConfig (config model)) "filled") in
  let k := if filled then "fill" else "stroke" in
  let configured :=
    applyMarkConfig (symbols_shape (mark model) ∅) model FILL_STROKE_CONFIG in
  let swatch :=
    if truthy (get (CompileLegend.fieldDef model COLOR) "value")
    then VObj {[ "value" := get (CompileLegend.fieldDef model COLOR) "value" ]}
    else js_or (get configured k)
               (VObj {[ "value" := get (markConfig (config model)) "color" ]}) in
  exists generated : obj,
    generated !! k = Some swatch /\
    symbols fieldDef symbolsSpec model channel =
      VObj (extend generated (js_or symbolsSpec (VObj ∅))).
Proof.
  intros Hc. cbn zeta. unfold symbols.
  rewrite (bool_decide_eq_false_2 _ Hc), andb_false_r.
  rewrite (bool_decide_eq_true_2 (channel ≠ COLOR) Hc).
  set (applied := applyMarkConfig _ _ _).
  set (k := if truthy (get (markConfig (config model)) "filled")
            then "fill" else "stroke").
  set (g := if negb (is_undef _) then _ else _).
  assert (g !! k =
          Some (if truthy (get (CompileLegend.fieldDef model COLOR) "value")
                then VObj {[ "value" := get (CompileLegend.fieldDef model COLOR) "value" ]}
                else js_or (get applied k)
                       (VObj {[ "value" := get (markConfig (config model)) "color" ]})))
    as Hg.
  { unfold g, k.
    destruct (truthy (get (markConfig (config model)) "filled"));
      destruct (truthy (get (CompileLegend.fieldDef model COLOR) "value"));
      cbn [is_undef negb]; rewrite lookup_insert_eq; try done.
    unfold get. by rewrite lookup_insert_ne. }
  exists g. split; [done|].
  rewrite (keys_nonempty _ k); [done|].
  apply extend_lookup_is_Some. by rewrite Hg.
Qed.

(** C10: the symbols rule decides the symbols group of every compiled
    legend, with or without a symbols override; on a channel other than
    color the object it returns always has an entry under "fill" (filled
    mark) or "stroke" (unfilled mark), which is the generic color of the
    mark configuration when neither the override, nor a constant color
    value, nor the configuration merge provides one; so the compiled
    legend of size and of shape always carries a symbols group. *)
Theorem symbols_group_always_present model channel :
  let filled := truthy (get (markConfig (config model)) "filled") in
  let k := if filled then "fill" else "stroke" in
  let fieldDef := fieldDef model channel in
  let configured :=
    applyMarkConfig (symbols_shape (mark model) ∅) model FILL_STROKE_CONFIG in
  (forall def props,
     parseLegend model channel = Some def ->
     properties_of (legend model channel) = Some props ->
     let generated :=
       symbols fieldDef (default VUndef (get_prop props "symbols")) model channel in
     has_keys generated = true -> group_of def "symbols" = Some generated) /\
  (channel ≠ COLOR ->
     forall symbolsSpec, exists s,
       symbols fieldDef symbolsSpec model channel = VObj s /\
       is_Some (s !! k) /\
       (enumerable (js_or symbolsSpec (VObj ∅)) !! k = None ->
        truthy (get (CompileLegend.fieldDef model COLOR) "value") = false ->
        truthy (get configured k) = false ->
        s !! k = Some (VObj {[ "value" := get (markConfig (config model)) "color" ]}))) /\
  (channel ∈ [SIZE; SHAPE] ->
   legend_truthy (legend model channel) = true ->
   formatting_only model channel ->
     exists def s,
       parseLegend model channel = Some def /\
       group_of def "symbols" = Some (VObj s) /\ is_Some (s !! k)).
Proof.
  cbn zeta.
  assert (channel ≠ COLOR ->
          forall symbolsSpec, exists s,
            symbols (fieldDef model channel) symbolsSpec model channel = VObj s /\
            is_Some (s !! (if truthy (get (markConfig (config model)) "filled")
                           then "fill" else "stroke")) /\
            (enumerable (js_or symbolsSpec (VObj ∅))
               !! (if truthy (get (markConfig (config model)) "filled")
                   then "fill" else "stroke") = None ->
             truthy (get (CompileLegend.fieldDef model COLOR) "value") = false ->
             truthy (get (applyMarkConfig (symbols_shape (mark model) ∅) model
                            FILL_STROKE_CONFIG)
                         (if truthy (get (markConfig (config model)) "filled")
                          then "fill" else "stroke")) = false ->
             s !! (if truthy (get (markConfig (config model)) "filled")
                   then "fill" else "stroke")
             = Some (VObj {[ "value" := get (markConfig (config model)) "color" ]})))
    as Hrule.
  { intros Hc symbolsSpec.
    destruct (symbols_not_color (fieldDef model channel) symbolsSpec model channel Hc)
      as (g & Hg & ->).
    eexists; split; [done|]. split.
    - apply extend_lookup_is_Some. by rewrite Hg.
    - intros Hspec Hvalue Hconf. unfold extend. rewrite lookup_union_r by done.
      rewrite Hg, Hvalue. unfold js_or. by rewrite Hconf. }
  split; [|split; [done|]].
  - intros def props Hp Hprops Hk.
    rewrite <- symbols_group_value in *.
    apply parseLegend_group; [done|done|set_solver|done].
  - intros Hc Ht Hf.
    destruct (parseLegend_total model channel) as [def Hp]; [set_solver|done|done|].
    destruct (parseLegend_inv _ _ _ Hp)
      as (_ & _ & _ & _ & props & _ & _ & _ & _ & Hprops & _).
    destruct (Hrule) with (symbolsSpec := default VUndef (get_prop props "symbols"))
      as (s & Hs & Hk & _).
    { intros ->. set_solver. }
    exists def, s. split; [done|]. split; [|done].
    rewrite <- Hs, <- symbols_group_value.
    apply parseLegend_group; [done|done|set_solver|].
    rewrite symbols_group_value, Hs. unfold has_keys. cbn [is_undef negb andb].
    by eapply keys_nonempty.
Qed.

(** The labels rule does not look at the override it is given. *)
Lemma labels_ignores_override fieldDef symbolsSpec model channel :
  labels fieldDef symbolsSpec model channel = labels fieldDef VUndef model channel.
Proof. reflexivity. Qed.

(** For the symbols group of a compiled legend the override is merged over
    the generated value. *)
Lemma parseLegend_symbols_merged model channel def o overrides symbolsSpec :
  parseLegend model channel = Some def ->
  legend model channel = LegendObj o ->
  get o "properties" = VObj overrides ->
  overrides !! "symbols" = Some (VObj symbolsSpec) ->
  let generated :=
    enumerable (symbols (fieldDef model channel) VUndef model channel) in
  symbolsSpec ∪ generated ≠ ∅ ->
  group_of def "symbols" = Some (VObj (symbolsSpec ∪ generated)).
Proof.
  intros Hp Hl Ho Hs generated Hne.
  assert (properties_of (legend model channel) = Some (VObj overrides)) as Hprops.
  { rewrite Hl. unfold properties_of; cbn. by rewrite Ho. }
  assert (symbols (fieldDef model channel) (VObj symbolsSpec) model channel
          = VObj (symbolsSpec ∪ generated)) as Hsym.
  { rewrite symbols_override_merged. cbn zeta. unfold js_or, extend. cbn.
    fold generated.
    destruct (bool_decide _) eqn:E; [done|]. by apply keys_empty in E. }
  assert (group_value (fieldDef model channel) (VObj overrides) model channel
            "symbols" = VObj (symbolsSpec ∪ generated)) as Hv.
  { rewrite symbols_group_value. cbn [get_prop]. unfold get. rewrite Hs.
    exact Hsym. }
  pose proof (parseLegend_group model channel def (VObj overrides) "symbols"
                Hp Hprops) as Hg.
  rewrite Hv in Hg. apply Hg; [set_solver|].
  unfold has_keys. cbn [is_undef negb andb].
  destruct (bool_decide _) eqn:E; [done|]. by apply keys_empty in E.
Qed.

End Facts.

(** C1: the override of a property group with a generation rule is to be
    merged over the generated value.  [symbols] does so; [labels] drops its
    override: for an ordinal color field and the labels override
    [{fill: {value: "red"}}] the compiled labels group is the generated
    [{text: ...}] alone, without the "fill" of the override. *)
Theorem labels_override_dropped :
  let model := Reference.ordinal_color_model in
  get_prop (default VUndef (properties_of (legend model COLOR))) "labels"
    = Some (VObj {[ "fill" := VObj {[ "value" := VStr "red" ]} ]}) /\
  exists def,
    @parseLegend Reference.collaborators model COLOR = Some def /\
    group_of def "labels" =
      Some (VObj {[ "text" := VObj {[ "scale" := VStr "color_legend";
                                     "field" := VStr "data" ]} ]}).
Proof.
  cbn zeta. split; [vm_compute; reflexivity|].
  eexists. split; vm_compute; reflexivity.
Qed.

End LegendFacts.

(** * The legend compiler on the reference inputs *)

Module LegendWitnesses.
Import CompileLegend LegendFacts.

(** The reference format-mixin resolver meets its contract. *)
Lemma reference_formatting_only model channel :
  @formatting_only Reference.collaborators model channel.
Proof.
  intros format k Hk. cbn. unfold Reference.utilFormatMixins.
  destruct (is_undef format); [done|].
  apply lookup_singleton_ne. intros <-. unfold legend_keys in Hk. set_solver.
Qed.

Lemma color_legend_scale_witness :
  exists def,
    @parseLegend Reference.collaborators Reference.ordinal_color_model COLOR
      = Some def /\
    def !! "stroke" = Some (VStr "color_legend") /\ def !! "fill" = None.
Proof.
  destruct (@parseLegend_total Reference.collaborators
              Reference.ordinal_color_model COLOR) as [def Hdef].
  - set_solver.
  - reflexivity.
  - apply reference_formatting_only.
  - exists def. split; [exact Hdef|].
    exact (proj2 (@color_legend_scale Reference.collaborators
                    Reference.ordinal_color_model)
             (reference_formatting_only _ _) def Hdef).
Defined.

Lemma binned_field_has_no_format_witness :
  @formatMixins Reference.collaborators
    (LegendObj {[ "format" := VStr ".2f" ]}) Reference.binned_color_model COLOR
  = Some ∅.
Proof.
  exact (proj1 (proj1 (@binned_field_has_no_format Reference.collaborators
                         Reference.binned_color_model COLOR) eq_refl)
           (LegendObj {[ "format" := VStr ".2f" ]})).
Defined.

Lemma legend_component_entries_witness :
  exists out,
    @parseLegendComponent Reference.collaborators Reference.ordinal_color_model
      = Some out /\
    is_Some (out !! "color") /\ ~ is_Some (out !! "size").
Proof.
  pose proof (@legend_component_entries Reference.collaborators
                Reference.ordinal_color_model) as [Hentries Htotal].
  destruct Htotal as [out Hout]; [apply reference_formatting_only|].
  exists out. split; [exact Hout|]. split.
  - apply (proj2 (proj1 (proj1 (Hentries out Hout) COLOR))).
    split; [apply list_elem_of_here|reflexivity].
  - intros Hsize.
    destruct (proj1 (proj1 (proj1 (Hentries out Hout) SIZE)) Hsize)
      as [_ Htruthy].
    discriminate Htruthy.
Defined.

Lemma symbols_group_always_present_witness :
  exists def s,
    @parseLegend Reference.collaborators Reference.size_model SIZE = Some def /\
    group_of def "symbols" = Some (VObj s) /\ is_Some (s !! "fill").
Proof.
  apply (proj2 (proj2 (@symbols_group_always_present Reference.collaborators
                         Reference.size_model SIZE))).
  - set_solver.
  - reflexivity.
  - apply reference_formatting_only.
Defined.

End LegendWitnesses.

(** * No call changes the objects it is given *)

Module StoreFacts.
Import Store.

Section Rules.
Context {A B : Type}.
Implicit Types (D : gset loc) (h : heap).

Lemma preserves_ret D (a : A) (Q : A -> heap -> Prop) h :
  Q a h -> preserves D (ret a) Q h.
Proof. intros HQ HD. cbn. split; [done|]. split; [done|]. by intros ? [= <-]. Qed.

Lemma preserves_throw D (Q : A -> heap -> Prop) h : preserves D throw Q h.
Proof. intros HD. cbn. by repeat split. Qed.

Lemma preserves_reads D (f : heap -> A) (Q : A -> heap -> Prop) h :
  Q (f h) h -> preserves D (reads f) Q h.
Proof. intros HQ HD. cbn. split; [done|]. split; [done|]. by intros ? [= <-]. Qed.

Lemma preserves_bind D (m : M A) (k : A -> M B) (Q : B -> heap -> Prop) h :
  preserves D m (fun a h' => preserves D (k a) Q h') h ->
  preserves D (bind m k) Q h.
Proof.
  intros Hm HD. destruct (Hm HD) as (HD' & Hframe & Hk). unfold bind.
  destruct (m h) as [[a|] h'] eqn:E; cbn in *.
  - destruct (Hk a eq_refl HD') as (HD'' & Hframe' & HQ).
    split; [done|]. split; [|done].
    intros l Hl. by rewrite Hframe', Hframe.
  - by repeat split.
Qed.

Lemma preserves_mono D (m : M A) (Q Q' : A -> heap -> Prop) h :
  preserves D m Q h ->
  (forall a h', Q a h' -> Q' a h') ->
  preserves D m Q' h.
Proof.
  intros Hm HQ HD. destruct (Hm HD) as (HD' & Hframe & Hk).
  split; [done|]. split; [done|]. intros a Ha. by apply HQ, Hk.
Qed.

(** Sequencing when what follows asks nothing of the store. *)
Lemma preserves_seq D (m : M A) (k : A -> M B) (P : A -> Prop)
    (Q : B -> heap -> Prop) h :
  preserves D m (fun a _ => P a) h ->
  (forall a h', P a -> preserves D (k a) Q h') ->
  preserves D (bind m k) Q h.
Proof.
  intros Hm Hk. apply preserves_bind. eapply preserves_mono; [exact Hm|].
  intros a h' Ha. by apply Hk.
Qed.

(** A call of a computation specified on the whole store. *)
Lemma preserves_call D (m : M A) (Qm Q : A -> heap -> Prop) h :
  preserves (dom h) m Qm h ->
  (forall a h', (forall l, l ∈ dom h -> h' !! l = h !! l) -> Qm a h' -> Q a h') ->
  preserves D m Q h.
Proof.
  intros Hm HQ HD. destruct (Hm (reflexivity _)) as (HD' & Hframe & Hk).
  split; [set_solver|]. split; [intros l Hl; apply Hframe; set_solver|].
  intros a Ha. apply HQ; [done|]. by apply Hk.
Qed.

End Rules.

Section Primitives.
Implicit Types (D : gset loc) (h : heap).

Lemma fresh_not_in h : fresh (dom h) ∉ dom h.
Proof. apply is_fresh. Qed.

Lemma insert_outside D h l (o : hobj) :
  D ⊆ dom h -> l ∉ D ->
  D ⊆ dom (<[l := o]> h) /\ (forall l', l' ∈ D -> <[l := o]> h !! l' = h !! l').
Proof.
  intros HD Hl. split.
  - rewrite dom_insert_L. set_solver.
  - intros l' Hl'. apply lookup_insert_ne. by intros ->.
Qed.

Lemma preserves_new D (o : hobj) (Q : hvalue -> heap -> Prop) h :
  (forall l, l ∉ D -> l ∉ dom h -> Q (HRef l) (<[l := o]> h)) ->
  preserves D (new_object o) Q h.
Proof.
  intros HQ HD. unfold new_object; cbn.
  pose proof (fresh_not_in h) as Hf.
  assert (fresh (dom h) ∉ D) as Hf' by set_solver.
  destruct (insert_outside D h (fresh (dom h)) o HD Hf') as [? ?].
  split; [done|]. split; [done|]. intros ? [= <-]. by apply HQ.
Qed.

Lemma preserves_get D v k (Q : hvalue -> heap -> Prop) h :
  (forall x, Q x h) -> preserves D (get_member v k) Q h.
Proof.
  intros HQ. destruct v; cbn;
    first [apply preserves_throw | by apply preserves_ret | by apply preserves_reads].
Qed.

Lemma preserves_get_ref D l k (Q : hvalue -> heap -> Prop) h :
  Q (default HUndef (object_at h l !! k)) h ->
  preserves D (get_member (HRef l) k) Q h.
Proof. intros HQ. by apply preserves_reads. Qed.

Lemma preserves_set D v k x (Q : unit -> heap -> Prop) h :
  (forall l, v = HRef l ->
     (l ∉ D) /\ Q tt (<[l := <[k := x]> (object_at h l)]> h)) ->
  preserves D (set_member v k x) Q h.
Proof.
  intros HQ. destruct v; cbn; try apply preserves_throw.
  destruct (HQ l eq_refl) as [Hl HQl]. intros HD.
  destruct (insert_outside D h l (<[k := x]> (object_at h l)) HD Hl) as [? ?].
  cbn. split; [done|]. split; [done|]. by intros [] _.
Qed.

Lemma preserves_extend D target x (Q : hvalue -> heap -> Prop) h :
  (forall l, target = HRef l ->
     (l ∉ D) /\ Q target (<[l := enumerable h x ∪ object_at h l]> h)) ->
  ((forall l, target ≠ HRef l) -> Q target h) ->
  preserves D (extend target x) Q h.
Proof.
  intros HQ HQ'. destruct target; cbn.
  1-5: (intros HD; case_decide; cbn; (split; [done|]); (split; [done|]);
        [intros ? [= <-]; by apply HQ'|done]).
  destruct (HQ l eq_refl) as [Hl HQl]. intros HD.
  destruct (insert_outside D h l (enumerable h x ∪ object_at h l) HD Hl) as [? ?].
  cbn. split; [done|]. split; [done|]. by intros ? [= <-].
Qed.

Lemma preserves_reduce {S A} D (P : S -> heap -> Prop)
    (body : S -> A -> M S) xs :
  (forall s x h, x ∈ xs -> P s h -> preserves D (body s x) P h) ->
  forall s h, P s h -> preserves D (reduce body s xs) P h.
Proof.
  induction xs as [|x xs IH]; intros Hbody s h Hs; cbn [reduce].
  - by apply preserves_ret.
  - apply preserves_bind. eapply preserves_mono.
    + apply Hbody; [left|done].
    + intros s' h' Hs'. apply IH; [|done].
      intros s2 y h2 Hy. apply Hbody. by right.
Qed.

Lemma preserves_forEach {A} D (P : heap -> Prop) (body : A -> M unit) xs :
  (forall x h, x ∈ xs -> P h -> preserves D (body x) (fun _ => P) h) ->
  forall h, P h -> preserves D (forEach body xs) (fun _ => P) h.
Proof.
  induction xs as [|x xs IH]; intros Hbody h Hh; cbn [forEach].
  - by apply preserves_ret.
  - apply preserves_bind. eapply preserves_mono.
    + apply Hbody; [left|done].
    + intros u h' Hh'. apply IH; [|done].
      intros y h2 Hy. apply Hbody. by right.
Qed.

End Primitives.

(** One step of a computation. *)
Ltac pstep :=
  lazymatch goal with
  | |- preserves _ (bind _ _) _ _ => apply preserves_bind
  | |- preserves _ (ret _) _ _ => apply preserves_ret
  | |- preserves _ throw _ _ => apply preserves_throw
  | |- preserves _ (reads _) _ _ => apply preserves_reads
  | |- preserves _ (new_object _) _ _ => apply preserves_new; intros ? ? ?
  | |- preserves _ (get_member _ _) _ _ => apply preserves_get; intros ?
  | |- preserves _ (set_member (HRef _) _ _) _ _ =>
      apply preserves_set; intros ? [= <-]; split; [assumption|]
  | |- preserves _ (set_member _ _ _) _ _ => apply preserves_throw
  | |- preserves _ (extend (HRef _) _) _ _ =>
      apply preserves_extend;
      [intros ? [= <-]; split; [assumption|]
      |let Hne := fresh in intros Hne; exfalso; by eapply Hne]
  | |- preserves _ (keys_length _) _ _ => apply preserves_reads
  | |- preserves _ (if ?b then _ else _) _ _ => destruct b
  end.

(** The next statement of a sequence, when what follows asks nothing of the
    store. *)
Ltac pseq :=
  eapply (preserves_seq _ _ _ (fun _ => True));
  [|let a := fresh "a" in let h := fresh "h" in intros a h _].

Section InitMarkConfig.
Context `{Config.EncodingHelpers}.

Lemma rule_preserves D mark encoding config lc property h :
  lc ∉ D ->
  preserves D (Config.rule mark encoding config (HRef lc) property)
    (fun r _ => r = HRef lc) h.
Proof.
  intros Hlc. unfold Config.rule. repeat pstep; done.
Qed.

Lemma initMarkConfig_preserves D mark encoding config h :
  preserves D (Config.initMarkConfig mark encoding config)
    (fun r _ => exists l, r = HRef l /\ l ∉ D) h.
Proof.
  unfold Config.initMarkConfig. pstep. pstep. pstep.
  eapply preserves_mono.
  - apply (preserves_reduce D (fun s _ => s = HRef l)); [|done].
    intros s x h' _ ->. by apply rule_preserves.
  - intros cfg h' ->. pstep. pstep.
    apply preserves_extend.
    + intros ? [= <-]. split; [done|]. eauto.
    + intros _. eauto.
Qed.

End InitMarkConfig.

Section Legend.
Context `{Legend.Collaborators}.
Hypothesis contract : Legend.helpers_contract.
Implicit Types (D : gset loc) (h : heap) (model : Legend.UnitModel).

Lemma object_at_insert_eq h l (o : hobj) : object_at (<[l := o]> h) l = o.
Proof. unfold object_at. by rewrite lookup_insert_eq. Qed.

Lemma object_at_insert_ne h l l' (o : hobj) :
  l ≠ l' -> object_at (<[l := o]> h) l' = object_at h l'.
Proof. intros Hl. unfold object_at. by rewrite lookup_insert_ne. Qed.

Lemma preserves_applyMarkConfig D ls model propsList
    (Q : unit -> heap -> Prop) h :
  ls ∉ D -> (forall h', Q tt h') ->
  preserves D (Legend.applyMarkConfig (HRef ls) model propsList) Q h.
Proof.
  intros Hls HQ HD. destruct contract as (Happly & _ & _).
  assert (forall l, l ∈ D ->
            (Legend.applyMarkConfig (HRef ls) model propsList h).2 !! l = h !! l)
    as Hframe.
  { intros l Hl. apply Happly; [set_solver|]. by intros ->. }
  split; [|split; [done|]].
  - intros l Hl. apply elem_of_dom. rewrite (Hframe l Hl).
    apply elem_of_dom. set_solver.
  - by intros [] _.
Qed.

Lemma preserves_utilFormatMixins D model channel format
    (Q : hvalue -> heap -> Prop) h :
  (forall mixins h',
     (forall l, l ∈ dom h -> h' !! l = h !! l) ->
     enumerable h' mixins !! "properties" = None -> Q mixins h') ->
  preserves D (Legend.utilFormatMixins model channel format) Q h.
Proof.
  intros HQ HD. destruct contract as (_ & Hleaves & Hmixins).
  pose proof (Hleaves model channel format h) as Hframe.
  split; [|split].
  - intros l Hl. apply elem_of_dom. rewrite Hframe by set_solver.
    apply elem_of_dom. set_solver.
  - intros l Hl. apply Hframe. set_solver.
  - intros mixins Hm. apply HQ; [done|]. by apply Hmixins.
Qed.

Lemma useColorLegendScale_preserves D fieldDef (Q : hvalue -> heap -> Prop) h :
  (forall v, Q v h) -> preserves D (Legend.useColorLegendScale fieldDef) Q h.
Proof. intros HQ. unfold Legend.useColorLegendScale. repeat pstep. apply HQ. Qed.

Lemma symbols_preserves D fieldDef symbolsSpec model channel h :
  preserves D (Legend.symbols fieldDef symbolsSpec model channel)
    (fun _ _ => True) h.
Proof.
  unfold Legend.symbols. pstep. pstep. rename l into ls.
  pseq. { destruct (Legend.mark model); repeat pstep; done. }
  pstep. pstep. pstep. pstep.
  apply preserves_bind, preserves_applyMarkConfig; [done|]. intros h2.
  pseq. { repeat pstep; done. }
  pseq.
  { pstep; pstep.
    - apply useColorLegendScale_preserves. intros use. repeat pstep; done.
    - repeat pstep; done. }
  pseq. { repeat pstep; done. }
  pseq. { repeat pstep; done. }
  repeat pstep; done.
Qed.

Lemma labels_preserves D fieldDef symbolsSpec model channel h :
  preserves D (Legend.labels fieldDef symbolsSpec model channel)
    (fun _ _ => True) h.
Proof. unfold Legend.labels. repeat pstep; done. Qed.

Lemma properties_private_frame D ld h h' :
  (forall l, l ∈ dom h -> h' !! l = h !! l) ->
  properties_private D ld h -> properties_private D ld h'.
Proof.
  intros Hframe [Hld Hp]. split.
  - apply elem_of_dom. rewrite (Hframe ld Hld). by apply elem_of_dom.
  - intros p. unfold object_at. rewrite (Hframe ld Hld). apply Hp.
Qed.

Lemma properties_private_new D ld h l (o : hobj) :
  l ∉ dom h ->
  properties_private D ld h -> properties_private D ld (<[l := o]> h).
Proof.
  intros Hl. apply properties_private_frame.
  intros l' Hl'. apply lookup_insert_ne. by intros ->.
Qed.

Lemma properties_private_set D ld h k x :
  k ≠ "properties" ->
  properties_private D ld h ->
  properties_private D ld (<[ld := <[k := x]> (object_at h ld)]> h).
Proof.
  intros Hk [Hld Hp]. split.
  - rewrite dom_insert_L. set_solver.
  - intros p. rewrite object_at_insert_eq, lookup_insert_ne by done. apply Hp.
Qed.

Lemma properties_private_None D ld h :
  ld ∈ dom h -> object_at h ld !! "properties" = None ->
  properties_private D ld h.
Proof. intros Hld Hp. split; [done|]. intros p. by rewrite Hp. Qed.

(** [def.properties = p; def.properties[group] = value]. *)
Lemma install_group_preserves D ld p group value h :
  ld ∉ D -> ld ∈ dom h -> group ≠ "properties" ->
  (forall lp, p = HRef lp -> lp ∉ D) ->
  preserves D
    (run set_member (HRef ld) "properties" p;
     do target <- get_member (HRef ld) "properties";
     set_member target group value)
    (fun _ h' => properties_private D ld h') h.
Proof.
  intros Hld Hin Hgroup Hp. pstep. pstep. pstep. apply preserves_get_ref.
  rewrite object_at_insert_eq, lookup_insert_eq.
  change (default HUndef (Some p)) with p.
  apply preserves_set. intros lp Heq. subst p.
  assert (lp ∉ D) as Hlp by by apply Hp. clear Hp.
  split; [done|]. split.
  - rewrite !dom_insert_L. set_solver.
  - intros q. destruct (decide (lp = ld)) as [->|Hne].
    + rewrite !object_at_insert_eq, lookup_insert_ne by done.
      rewrite lookup_insert_eq. by intros [= <-].
    + rewrite object_at_insert_ne by done.
      rewrite object_at_insert_eq, lookup_insert_eq. by intros [= <-].
Qed.

Lemma add_group_preserves D fieldDef props model channel ld group h :
  ld ∉ D -> group ≠ "properties" ->
  properties_private D ld h ->
  preserves D (Legend.add_group fieldDef props model channel (HRef ld) group)
    (fun _ h' => properties_private D ld h') h.
Proof.
  intros Hld Hgroup J. unfold Legend.add_group.
  pstep. pstep. rename x into override. apply preserves_bind.
  eapply preserves_mono with (Q := fun _ h' => properties_private D ld h').
  { destruct (Legend.properties group) as [rule|] eqn:E.
    - unfold Legend.properties in E.
      destruct (String.eqb group "symbols"); [injection E as <-|].
      { eapply preserves_call; [apply symbols_preserves|].
        intros a h' Hframe _. by eapply properties_private_frame. }
      destruct (String.eqb group "labels"); [injection E as <-|done].
      eapply preserves_call; [apply labels_preserves|].
      intros a h' Hframe _. by eapply properties_private_frame.
    - by pstep. }
  clear h J. intros value h J. pstep. pstep. pstep; [|by pstep].
  pstep. apply preserves_get_ref.
  destruct J as [Hin Hp]. pstep.
  destruct (truthy (default HUndef (object_at h ld !! "properties"))) eqn:T.
  - pstep. apply install_group_preserves; try done.
    intros lp Hcur. apply Hp.
    destruct (object_at h ld !! "properties"); [|done]. by f_equal.
  - pstep. apply install_group_preserves; try done.
    + rewrite dom_insert_L. set_solver.
    + by intros ? [= <-].
Qed.

Lemma getLegendDefWithScale_preserves D model channel h :
  preserves D (Legend.getLegendDefWithScale model channel)
    (fun v h' => v = HNull \/
                 exists ld, v = HRef ld /\ (ld ∉ D) /\ properties_private D ld h') h.
Proof.
  assert (forall k x h0, k ≠ "properties" ->
            preserves D (new_object {[ k := x ]})
              (fun v h' => v = HNull \/
                 exists ld, v = HRef ld /\ (ld ∉ D) /\ properties_private D ld h') h0)
    as Hnew.
  { intros k x h0 Hk. pstep. right. eexists; split; [done|]. split; [done|].
    apply properties_private_None.
    - rewrite dom_insert_L. set_solver.
    - rewrite object_at_insert_eq. by apply lookup_singleton_ne. }
  unfold Legend.getLegendDefWithScale. destruct channel; try (pstep; by left);
    try by apply Hnew.
  pstep. apply useColorLegendScale_preserves. intros use.
  pstep. pstep. pstep. pstep. pstep; by apply Hnew.
Qed.

Lemma title_preserves D legend fieldDef (Q : hvalue -> heap -> Prop) h :
  (forall t, Q t h) -> preserves D (Legend.title legend fieldDef) Q h.
Proof. intros HQ. unfold Legend.title. repeat pstep; apply HQ. Qed.

Lemma formatMixins_preserves D legend model channel ld h :
  properties_private D ld h ->
  preserves D (Legend.formatMixins legend model channel)
    (fun mixins h' => properties_private D ld h'
                      /\ enumerable h' mixins !! "properties" = None) h.
Proof.
  intros J. unfold Legend.formatMixins. pstep. pstep. pstep.
  - pstep. split.
    + by apply properties_private_new.
    + cbn. by rewrite object_at_insert_eq.
  - pstep. eapply preserves_mono with (Q := fun _ h' => h' = h).
    { repeat pstep; done. }
    intros format h' ->. apply preserves_utilFormatMixins.
    intros mixins h' Hframe Hmixins. split; [|done].
    by eapply properties_private_frame.
Qed.

Lemma copy_property_preserves D legend ld property h :
  ld ∉ D -> property ≠ "properties" ->
  properties_private D ld h ->
  preserves D (Legend.copy_property legend (HRef ld) property)
    (fun _ h' => properties_private D ld h') h.
Proof.
  intros Hld Hp J. unfold Legend.copy_property. repeat pstep; try done.
  by apply properties_private_set.
Qed.

Lemma parseLegend_preserves D model channel h :
  preserves D (Legend.parseLegend model channel)
    (fun r _ => exists l, r = HRef l /\ l ∉ D) h.
Proof.
  unfold Legend.parseLegend. pstep.
  eapply preserves_mono; [apply getLegendDefWithScale_preserves|].
  clear h. intros def h [->|(ld & -> & Hld & J)].
  { unfold Legend.title. repeat pstep. }
  pstep. apply title_preserves. intros t. pstep. pstep.
  pstep. eapply preserves_mono.
  { apply (formatMixins_preserves D _ _ _ ld).
    by apply properties_private_set. }
  clear h J. intros mixins h [J Hmixins]. pstep.
  apply preserves_extend; [|intros Hne; exfalso; by eapply Hne].
  intros ? [= <-]. split; [done|].
  assert (properties_private D ld
            (<[ld := enumerable h mixins ∪ object_at h ld]> h)) as J'.
  { destruct J as [Hin Hp]. split.
    - rewrite dom_insert_L. set_solver.
    - intros p. rewrite object_at_insert_eq, lookup_union_r by done. apply Hp. }
  revert J'. generalize (<[ld := enumerable h mixins ∪ object_at h ld]> h).
  clear h J Hmixins. intros h J. pstep.
  eapply preserves_mono.
  { apply (preserves_forEach D (properties_private D ld)); [|done].
    intros property h' Hin J'. apply copy_property_preserves; [done| |done].
    intros ->. set_solver. }
  clear h J. intros u h J. cbn beta in J. pstep.
  eapply preserves_mono with (Q := fun _ h' => properties_private D ld h').
  { repeat pstep; done. }
  clear h J. intros requested h J. pstep.
  eapply preserves_mono with (Q := fun _ h' => properties_private D ld h').
  { repeat pstep; try done. by apply properties_private_new. }
  clear h J. intros props h J. pstep.
  eapply preserves_mono.
  { apply (preserves_forEach D (properties_private D ld)); [|done].
    intros group h' Hin J'. apply add_group_preserves; [done| |done].
    intros ->. set_solver. }
  intros u' h' _. pstep. eauto.
Qed.

Lemma parseLegendComponent_preserves D model h :
  preserves D (Legend.parseLegendComponent model)
    (fun r _ => exists l, r = HRef l /\ l ∉ D) h.
Proof.
  unfold Legend.parseLegendComponent. pstep. pstep.
  eapply preserves_mono.
  - apply (preserves_reduce D (fun s _ => s = HRef l)); [|done].
    intros s channel h' _ ->. unfold Legend.component_step.
    pstep; [|by pstep].
    pseq; [eapply preserves_mono; [apply parseLegend_preserves|done]|].
    repeat pstep; done.
  - intros r h' ->. eauto.
Qed.

End Legend.

(** The reference helpers meet the contract. *)
Lemma reference_contract :
  @Legend.helpers_contract Reference.InStore.collaborators.
Proof.
  split; [|split].
  - intros target model propsList h l Hl Hne. cbn.
    assert (preserves (dom h ∖ {[target]})
              (Reference.InStore.applyMarkConfig (HRef target) model propsList)
              (fun _ _ => True) h) as Hp.
    { assert (target ∉ dom h ∖ {[target]}) as Ht by set_solver.
      revert Ht. generalize (dom h ∖ {[target]}). intros D Ht.
      unfold Reference.InStore.applyMarkConfig.
      eapply preserves_mono.
      - apply (preserves_forEach D (fun _ => True)); [|done].
        intros property h' _ _. repeat pstep; done.
      - done. }
    destruct Hp as (_ & Hframe & _); [set_solver|]. apply Hframe. set_solver.
  - intros model channel format h l Hl. cbn.
    unfold Reference.InStore.utilFormatMixins.
    destruct (is_undef format); cbn; apply lookup_insert_ne;
      intros <-; by apply (fresh_not_in h).
  - intros model channel format h mixins. cbn.
    unfold Reference.InStore.utilFormatMixins.
    destruct (is_undef format); cbn; intros [= <-]; cbn;
      rewrite object_at_insert_eq; [done|by apply lookup_singleton_ne].
Qed.

Lemma preserves_leaves_fresh (m : M hvalue) :
  (forall D h, preserves D m (fun r _ => exists l, r = HRef l /\ l ∉ D) h) ->
  leaves_store m /\ returns_fresh m.
Proof.
  intros Hm. split.
  - intros h l Hl. destruct (Hm (dom h) h) as (_ & Hframe & _); [done|].
    by apply Hframe.
  - intros h l Hr. destruct (Hm (dom h) h) as (_ & _ & Hres); [done|].
    destruct (Hres _ Hr) as (l' & [= <-] & Hl'). done.
Qed.

(** C9: a call of the mark-default resolver, of the legend compiler for a
    channel or of the legend compilation entry point leaves every object
    that exists before the call (the base configuration, the encoding, the
    model and what they refer to) as it was, whether it returns or throws;
    what it returns is an object it has created.  The imported helpers are
    taken under their contract: the format-mixin resolver changes nothing and
    [applyMarkConfig] assigns only to the property set it is given. *)
Theorem inputs_not_mutated :
  (forall (helpers : Config.EncodingHelpers) mark encoding config,
     leaves_store (Config.initMarkConfig mark encoding config) /\
     returns_fresh (Config.initMarkConfig mark encoding config)) /\
  (forall (collaborators : Legend.Collaborators),
     Legend.helpers_contract ->
     forall model,
       (forall channel,
          leaves_store (Legend.parseLegend model channel) /\
          returns_fresh (Legend.parseLegend model channel)) /\
       leaves_store (Legend.parseLegendComponent model) /\
       returns_fresh (Legend.parseLegendComponent model)).
Proof.
  split.
  - intros helpers mark encoding config. apply preserves_leaves_fresh.
    intros D h. apply initMarkConfig_preserves.
  - intros collaborators contract model. split.
    + intros channel. apply preserves_leaves_fresh.
      intros D h. by apply parseLegend_preserves.
    + apply preserves_leaves_fresh.
      intros D h. by apply parseLegendComponent_preserves.
Qed.

Lemma inputs_not_mutated_witness :
  (@Legend.parseLegend Reference.InStore.collaborators
     Reference.InStore.sample_model SIZE Reference.InStore.sample_store).2
    !! 4%positive
  = Reference.InStore.sample_store !! 4%positive.
Proof.
  refine (proj1 (proj1 (proj2 inputs_not_mutated Reference.InStore.collaborators
                          reference_contract Reference.InStore.sample_model) SIZE)
            Reference.InStore.sample_store 4%positive _).
  apply elem_of_dom. eexists. vm_compute. reflexivity.
Defined.

(** The compiled size legend of the sample, read from the store: the
    override of the symbols group is merged into a new object and the object
    of the request is shared, not copied. *)
Example sample_run :
  let result := @Legend.parseLegend Reference.InStore.collaborators
                  Reference.InStore.sample_model SIZE
                  Reference.InStore.sample_store in
  result.1 = Some (HRef 8%positive) /\
  object_at result.2 8%positive !! "size" = Some (HStr "size") /\
  object_at result.2 8%positive !! "title" = Some (HStr "Size") /\
  object_at result.2 8%positive !! "properties" = Some (HRef 14%positive) /\
  object_at result.2 14%positive !! "symbols" = Some (HRef 10%positive) /\
  dom (object_at result.2 10%positive)
    = {[ "shape"; "strokeWidth"; "fill"; "opacity" ]} /\
  object_at result.2 10%positive !! "opacity" = Some (HRef 7%positive).
Proof. cbn zeta. repeat split; vm_compute; reflexivity. Qed.

(** On the samples the two embeddings agree: the object the store
    embedding returns stands for the value the first embedding computes. *)
Example sample_run_agrees :
  let result := @Legend.parseLegend Reference.InStore.collaborators
                  Reference.InStore.sample_model SIZE
                  Reference.InStore.sample_store in
  Some (reify 4 result.2 (default HUndef result.1)) =
    VObj <$> @CompileLegend.parseLegend Reference.collaborators
               (Reference.model_value Reference.InStore.sample_store
                  Reference.InStore.sample_model) SIZE.
Proof. vm_compute. reflexivity. Qed.

Example color_run_agrees :
  let result := @Legend.parseLegend Reference.InStore.collaborators
                  Reference.InStore.color_model COLOR
                  Reference.InStore.color_store in
  Some (reify 4 result.2 (default HUndef result.1)) =
    VObj <$> @CompileLegend.parseLegend Reference.collaborators
               (Reference.model_value Reference.InStore.color_store
                  Reference.InStore.color_model) COLOR.
Proof. vm_compute. reflexivity. Qed.

Example component_run_agrees :
  let result := @Legend.parseLegendComponent Reference.InStore.collaborators
                  Reference.InStore.color_model
                  Reference.InStore.color_store in
  Some (reify 5 result.2 (default HUndef result.1)) =
    (fun out => VObj (VObj <$> out)) <$>
      @CompileLegend.parseLegendComponent Reference.collaborators
        (Reference.model_value Reference.InStore.color_store
           Reference.InStore.color_model).
Proof. vm_compute. reflexivity. Qed.

Example sample_config_agrees :
  let result := @Config.initMarkConfig Reference.InStore.encodingHelpers
                  CIRCLE (HRef 3%positive) (HRef 1%positive)
                  Reference.InStore.config_store in
  reify 2 result.2 (default HUndef result.1) =
    VObj (@CompileConfig.initMarkConfig Reference.encodingHelpers CIRCLE
            Reference.encoding_xq_yn
            {| markConfig := {[ "color" := VStr "#4682b4";
                                "orient" := VStr "vertical" ]} |}).
Proof. vm_compute. reflexivity. Qed.

End StoreFacts.

(** * More on the mark-default resolver *)

Module ConfigMore.
Import CompileConfig ConfigFacts.

Section Facts.
Context `{EncodingHelpers}.
Implicit Types (mark : Mark) (encoding : obj) (config : Config).

Lemma derived_other mark encoding config property :
  property ∉ ["filled"; "opacity"; "orient"; "align"] ->
  derived mark encoding config !! property = None.
Proof.
  intros Hp. unfold derived, rule; cbn.
  repeat (case_match; try done);
    repeat (rewrite lookup_insert_ne by (intros <-; set_solver)); done.
Qed.

(** X1: with no explicit "align" in the base configuration the resolved
    alignment is "center" when the encoding has the x channel and "right"
    otherwise, for every mark type. *)
Theorem align_default mark encoding config :
  markConfig config !! "align" = None ->
  initMarkConfig mark encoding config !! "align" =
    Some (VStr (if has encoding X then "center" else "right")).
Proof.
  intros E.
  by rewrite initMarkConfig_lookup, E, derived_align, (absent_is_undef _ _ E).
Qed.

(** X2: the resolver keeps every property of the base configuration, adds
    none but "filled", "opacity", "orient" and "align", and gives every
    property other than these four the value the base configuration
    has. *)
Theorem base_configuration_kept mark encoding config :
  let resolved := initMarkConfig mark encoding config in
  dom (markConfig config) ⊆ dom resolved /\
  dom resolved ⊆ dom (markConfig config)
                 ∪ {[ "filled"; "opacity"; "orient"; "align" ]} /\
  (forall property,
     property ∉ ["filled"; "opacity"; "orient"; "align"] ->
     resolved !! property = markConfig config !! property).
Proof.
  cbn zeta.
  assert (forall property,
            property ∉ ["filled"; "opacity"; "orient"; "align"] ->
            initMarkConfig mark encoding config !! property
            = markConfig config !! property) as Hother.
  { intros property Hp. rewrite initMarkConfig_lookup.
    destruct (markConfig config !! property); [done|]. by apply derived_other. }
  split; [|split; [|done]].
  - intros k Hk. apply elem_of_dom in Hk as [v Hv]. apply elem_of_dom.
    exists v. by apply initMarkConfig_base_wins.
  - intros k Hk.
    destruct (decide (k ∈ ["filled"; "opacity"; "orient"; "align"])) as [Hin|Hn].
    + set_solver.
    + apply elem_of_union_l. apply elem_of_dom. rewrite <- (Hother k Hn).
      by apply elem_of_dom.
Qed.

(** X3: resolving a second time changes nothing: the resolved mark
    configuration, taken as base configuration for the same mark and
    encoding, resolves to itself. *)
Theorem initMarkConfig_idempotent mark encoding config :
  initMarkConfig mark encoding
    {| markConfig := initMarkConfig mark encoding config |}
  = initMarkConfig mark encoding config.
Proof.
  set (r := initMarkConfig mark encoding config).
  apply map_eq. intros i. rewrite initMarkConfig_lookup. cbn [markConfig].
  destruct (r !! i) as [v|] eqn:Er; [done|].
  destruct (decide (i ∈ ["filled"; "opacity"; "orient"; "align"])) as [Hin|Hn];
    [|by apply derived_other].
  assert (markConfig config !! i = None
          /\ derived mark encoding config !! i = None) as [Ec Ed].
  { unfold r in Er. rewrite initMarkConfig_lookup in Er.
    by destruct (markConfig config !! i). }
  repeat (apply elem_of_cons in Hin as [->|Hin]); [..|by apply elem_of_nil in Hin].
  - rewrite derived_filled, (absent_is_undef _ _ Ec) in Ed. done.
  - rewrite derived_opacity, (absent_is_undef _ _ Ec) in Ed.
    rewrite derived_opacity. cbn [markConfig]. unfold get at 1. rewrite Er.
    cbn. exact Ed.
  - rewrite derived_orient in *. exact Ed.
  - rewrite derived_align, (absent_is_undef _ _ Ec) in Ed. done.
Qed.

(** X4: each rule reads only what it names: the resolved "filled" does not
    depend on the encoding, the resolved "orient" and "align" do not depend
    on the mark type, and none of the three depends on another property of
    the base configuration. *)
Theorem rules_are_independent mark mark' encoding encoding' config config' :
  (markConfig config !! "filled" = markConfig config' !! "filled" ->
   initMarkConfig mark encoding config !! "filled"
   = initMarkConfig mark encoding' config' !! "filled") /\
  (markConfig config !! "orient" = markConfig config' !! "orient" ->
   initMarkConfig mark encoding config !! "orient"
   = initMarkConfig mark' encoding config' !! "orient") /\
  (markConfig config !! "align" = markConfig config' !! "align" ->
   initMarkConfig mark encoding config !! "align"
   = initMarkConfig mark' encoding config' !! "align").
Proof.
  repeat split; intros E; rewrite !initMarkConfig_lookup, <- E;
    destruct (markConfig config !! _) eqn:E1; try done.
  - rewrite !derived_filled. unfold get. by rewrite <- E, E1.
  - by rewrite !derived_orient.
  - rewrite !derived_align. unfold get. by rewrite <- E, E1.
Qed.

End Facts.

Lemma align_default_witness :
  @initMarkConfig Reference.encodingHelpers TEXT Reference.encoding_xq_yn
    {| markConfig := ∅ |} !! "align" = Some (VStr "center").
Proof.
  refine (@align_default Reference.encodingHelpers TEXT Reference.encoding_xq_yn
            {| markConfig := ∅ |} _).
  vm_compute. reflexivity.
Defined.

Lemma base_configuration_kept_witness :
  @initMarkConfig Reference.encodingHelpers BAR Reference.encoding_xq_yn
    {| markConfig := {[ "color" := VStr "#4682b4" ]} |} !! "color"
  = Some (VStr "#4682b4").
Proof.
  refine (proj2 (proj2 (@base_configuration_kept Reference.encodingHelpers BAR
            Reference.encoding_xq_yn
            {| markConfig := {[ "color" := VStr "#4682b4" ]} |})) "color" _).
  intros Hin. repeat (apply elem_of_cons in Hin as [Hin|Hin]; [discriminate Hin|]).
  by apply elem_of_nil in Hin.
Defined.

Lemma rules_are_independent_witness :
  @initMarkConfig Reference.encodingHelpers BAR Reference.encoding_xq_yn
    {| markConfig := ∅ |} !! "filled"
  = @initMarkConfig Reference.encodingHelpers BAR ∅
      {| markConfig := {[ "color" := VStr "red" ]} |} !! "filled".
Proof.
  refine (proj1 (@rules_are_independent Reference.encodingHelpers BAR BAR
            Reference.encoding_xq_yn ∅ {| markConfig := ∅ |}
            {| markConfig := {[ "color" := VStr "red" ]} |}) _).
  vm_compute. reflexivity.
Defined.

End ConfigMore.

(** * More on the legend compiler *)

Module LegendMore.
Import CompileLegend LegendFacts LegendParts.

Section Facts.
Context `{Collaborators}.
Implicit Types (model : UnitModel) (channel : Channel) (def : obj).

Lemma forEach_invariant_in {S A} (P : S -> Prop) (body : S -> A -> option S) xs :
  (forall s x s', x ∈ xs -> body s x = Some s' -> P s -> P s') ->
  forall s s', forEach body s xs = Some s' -> P s -> P s'.
Proof.
  induction xs as [|x xs IH]; intros Hbody s s'; cbn.
  - by intros [= ->].
  - destruct (body s x) as [s1|] eqn:E; cbn; [|done].
    intros Hrun Hs. eapply IH; [|done|].
    + intros s2 y s3 Hy. apply Hbody. by right.
    + eapply Hbody; [left|done|done].
Qed.

(** ** When [parseLegend] returns *)

Lemma legend_get_present legend k :
  legend ≠ LegendAbsent -> is_Some (legend_get legend k).
Proof. destruct legend; cbn; eauto. done. Qed.

Lemma legend_get_requested legend k v :
  legend_get legend k = Some v -> v = requested legend k.
Proof. destruct legend; cbn; congruence. Qed.

Lemma scale_definition model channel d0 :
  getLegendDefWithScale model channel = VObj d0 ->
  channel ∈ [COLOR; SIZE; SHAPE] /\
  exists key scale,
    d0 = {[ key := VStr scale ]} /\
    key = match channel with
          | SIZE => "size"
          | SHAPE => "shape"
          | _ => if truthy (get (markConfig (config model)) "filled")
                 then "fill" else "stroke"
          end.
Proof.
  unfold getLegendDefWithScale.
  destruct channel; try done; try destruct (truthy (get _ "filled"));
    intros [= <-]; (split; [set_solver|]); eauto.
Qed.

Lemma stage_after_mixins model channel d0 t mixins k :
  getLegendDefWithScale model channel = VObj d0 ->
  formatting_only model channel ->
  formatMixins (legend model channel) model channel = Some mixins ->
  k ∈ legend_keys ->
  extend (<["title" := t]> d0) (VObj mixins) !! k = <["title" := t]> d0 !! k.
Proof.
  intros Hd Hf Hm Hk. unfold extend; cbn. rewrite lookup_union_r; [done|].
  by eapply formatMixins_formatting_only.
Qed.

Lemma copy_property_same legend def property def' :
  copy_property legend def property = Some def' ->
  def' !! property =
    if is_undef (requested legend property) then def !! property
    else Some (requested legend property).
Proof.
  unfold copy_property. destruct (legend_get legend property) as [v|] eqn:E; [|done].
  apply legend_get_requested in E as ->. cbn. intros [= <-].
  destruct (is_undef _); cbn; [done|]. by rewrite lookup_insert_eq.
Qed.

Lemma loops_keep model channel props def1 def k :
  forEach (add_group (fieldDef model channel) props model channel) def1
          ["title"; "symbols"; "legend"; "labels"] = Some def ->
  k ≠ "properties" -> def !! k = def1 !! k.
Proof.
  intros Hrun Hk.
  refine (forEach_invariant (fun d => d !! k = def1 !! k) _ _ _ _ _ Hrun eq_refl).
  intros s x s' Hs <-. by eapply add_group_other.
Qed.

Lemma copy_stage legend (defm def1 : obj) k :
  forEach (copy_property legend) defm ["orient"; "values"] = Some def1 ->
  def1 !! k =
    if bool_decide (k ∈ ["orient"; "values"])
       && negb (is_undef (requested legend k))
    then Some (requested legend k) else defm !! k.
Proof.
  cbn [forEach]. intros Hrun.
  apply bind_Some in Hrun as (da & Ea & Hrun).
  apply bind_Some in Hrun as (db & Eb & [= <-]).
  destruct (decide (k = "values")) as [->|Hv].
  { rewrite (copy_property_same _ _ _ _ Eb).
    rewrite (copy_property_other _ _ _ _ "values" Ea) by done.
    rewrite bool_decide_eq_true_2 by set_solver.
    by destruct (is_undef _). }
  rewrite (copy_property_other _ _ _ _ k Eb) by done.
  destruct (decide (k = "orient")) as [->|Ho].
  { rewrite (copy_property_same _ _ _ _ Ea).
    rewrite bool_decide_eq_true_2 by set_solver.
    by destruct (is_undef _). }
  rewrite (copy_property_other _ _ _ _ k Ea) by done.
  rewrite bool_decide_eq_false_2; [done|]. set_solver.
Qed.

(** X5: [parseLegend] returns exactly for the channels color, size and
    shape with a request that is there, be it [false]; for another channel
    or without a request it throws.  (That it returns is under the contract
    of the format mixins.) *)
Theorem parseLegend_returns_iff model channel :
  (is_Some (parseLegend model channel) ->
     channel ∈ [COLOR; SIZE; SHAPE] /\ legend model channel ≠ LegendAbsent) /\
  (formatting_only model channel ->
   channel ∈ [COLOR; SIZE; SHAPE] -> legend model channel ≠ LegendAbsent ->
     is_Some (parseLegend model channel)).
Proof.
  split.
  - intros [def Hp].
    destruct (parseLegend_inv _ _ _ Hp)
      as (d0 & t & _ & _ & _ & Hd & Ht & _).
    split; [by eapply scale_definition|].
    intros Habs. rewrite Habs in Ht. discriminate Ht.
  - intros Hf Hc Ht.
    assert (exists t, title (legend model channel) (fieldDef model channel) = Some t)
      as [t Htitle].
    { unfold title. destruct (not_boolean _); cbn; [|eauto].
      destruct (legend_get_present _ "title" Ht) as [v ->]. cbn. eauto. }
    assert (exists d0, getLegendDefWithScale model channel = VObj d0
                       /\ d0 !! "properties" = None) as (d0 & Hd0 & Hd0p).
    { unfold getLegendDefWithScale.
      repeat (apply elem_of_cons in Hc as [->|Hc]); [..|by apply elem_of_nil in Hc];
        try destruct (truthy (get _ "filled"));
        eexists; (split; [done|]); by rewrite lookup_singleton_ne. }
    assert (exists mixins, formatMixins (legend model channel) model channel = Some mixins)
      as [mixins Hmix].
    { unfold formatMixins. destruct (truthy _); [eauto|].
      destruct (not_boolean _); cbn; [|eauto].
      destruct (legend_get_present _ "format" Ht) as [v ->]. cbn. eauto. }
    assert (exists props, properties_of (legend model channel) = Some props)
      as [props Hprops].
    { unfold properties_of. destruct (not_boolean _); cbn; [|eauto].
      destruct (legend_get_present _ "properties" Ht) as [v ->]. cbn. eauto. }
    set (defm := extend (<["title" := t]> d0) (VObj mixins)).
    assert (defm !! "properties" = None) as Hdefm.
    { unfold defm. rewrite (stage_after_mixins model channel) by
        (try done; unfold legend_keys; set_solver).
      by rewrite lookup_insert_ne. }
    destruct (forEach_total (fun d : obj => d !! "properties" = None)
                (copy_property (legend model channel)) ["orient"; "values"])
      with (s := defm) as (def1 & Hdef1 & Hdef1p); [|done|].
    { intros s x Hx Hs. unfold copy_property.
      destruct (legend_get_present _ x Ht) as [v ->]. cbn.
      eexists; split; [done|]. destruct (negb (is_undef v)); [|done].
      rewrite lookup_insert_ne; [done|]. set_solver. }
    destruct (forEach_total
                (fun d : obj => truthy (get d "properties") = true ->
                                exists p, get d "properties" = VObj p)
                (add_group (fieldDef model channel) props model channel)
                ["title"; "symbols"; "legend"; "labels"])
      with (s := def1) as (def & Hdef & _).
    { intros s x _ Hs. apply add_group_total; [|done].
      by eapply properties_of_truthy. }
    { unfold get. by rewrite Hdef1p. }
    unfold parseLegend. rewrite Htitle, Hd0, Hmix, Hprops. cbn [mbind option_bind].
    fold defm. rewrite Hdef1. cbn [mbind option_bind]. rewrite Hdef. eauto.
Qed.

(** X6: the title of a compiled legend is the title of the request when it
    is truthy, and the title of the field otherwise: for a boolean request,
    a request without title and a request whose title is the empty
    string. *)
Theorem compiled_title model channel def :
  formatting_only model channel ->
  parseLegend model channel = Some def ->
  let explicit := requested (legend model channel) "title" in
  def !! "title" =
    Some (if truthy explicit then explicit
          else fieldTitle (fieldDef model channel)).
Proof.
  intros Hf Hp. cbn zeta.
  destruct (parseLegend_inv _ _ _ Hp)
    as (d0 & t & mixins & def1 & props & Hd & Ht & Hmix & H1 & _ & H2).
  rewrite (loops_keep _ _ _ _ _ "title" H2) by done.
  rewrite (copy_stage _ _ _ "title" H1).
  rewrite bool_decide_eq_false_2 by set_solver. cbn [andb].
  rewrite (stage_after_mixins model channel) by
    (try done; unfold legend_keys; set_solver).
  rewrite lookup_insert_eq. f_equal.
  revert Ht. unfold title.
  destruct (legend model channel) as [|b|o]; cbn; [done|..]; by intros [= <-].
Qed.

(** X7: "orient" and "values" of a compiled legend are the ones of the
    request, verbatim, and are absent when the request does not define
    them or is a boolean. *)
Theorem orient_and_values_copied model channel def property :
  formatting_only model channel ->
  parseLegend model channel = Some def ->
  property ∈ ["orient"; "values"] ->
  let value := requested (legend model channel) property in
  def !! property = if is_undef value then None else Some value.
Proof.
  intros Hf Hp Hin. cbn zeta.
  destruct (parseLegend_inv _ _ _ Hp)
    as (d0 & t & mixins & def1 & props & Hd & Ht & Hmix & H1 & _ & H2).
  rewrite (loops_keep _ _ _ _ _ property H2) by (intros ->; set_solver).
  rewrite (copy_stage _ _ _ property H1).
  rewrite bool_decide_eq_true_2 by done. cbn [andb].
  destruct (is_undef _); cbn [negb]; [|done].
  rewrite (stage_after_mixins model channel) by
    (try done; unfold legend_keys; set_solver).
  rewrite lookup_insert_ne by (intros <-; set_solver).
  destruct (scale_definition _ _ _ Hd) as (_ & key & scale & -> & Hkey).
  apply lookup_singleton_ne. intros <-.
  destruct channel; try destruct (truthy (get _ "filled")); subst; set_solver.
Qed.

(** X8: a compiled legend refers to its scale under exactly one of "fill",
    "stroke", "size" and "shape": "size" for the size channel, "shape" for
    the shape channel, and the other three are absent. *)
Theorem one_scale_reference model channel def :
  formatting_only model channel ->
  parseLegend model channel = Some def ->
  let key := match channel with
             | SIZE => "size"
             | SHAPE => "shape"
             | _ => if truthy (get (markConfig (config model)) "filled")
                    then "fill" else "stroke"
             end in
  (channel ∈ [SIZE; SHAPE] ->
     def !! key = Some (VStr (scaleName model (channel_name channel)))) /\
  is_Some (def !! key) /\
  (forall k, k ∈ ["fill"; "stroke"; "size"; "shape"] -> k ≠ key ->
             def !! k = None).
Proof.
  intros Hf Hp. cbn zeta.
  destruct (parseLegend_inv _ _ _ Hp)
    as (d0 & t & mixins & def1 & props & Hd & Ht & Hmix & H1 & _ & H2).
  assert (forall k, k ∈ ["fill"; "stroke"; "size"; "shape"] ->
                    def !! k = d0 !! k) as Hlook.
  { intros k Hk. apply (parseLegend_lookup model channel); [done|done|set_solver|].
    intros m Hm. eapply formatMixins_formatting_only; eauto.
    unfold legend_keys. set_solver. }
  destruct (scale_definition _ _ _ Hd) as (Hc & key & scale & Hd0 & Hkey).
  rewrite <- Hkey.
  assert (key ∈ ["fill"; "stroke"; "size"; "shape"]) as Hkin.
  { subst key. destruct channel; try destruct (truthy (get _ "filled")); set_solver. }
  split; [|split].
  - intros Hcs. rewrite (Hlook key Hkin). revert Hd. unfold getLegendDefWithScale.
    repeat (apply elem_of_cons in Hcs as [->|Hcs]); [..|by apply elem_of_nil in Hcs];
      intros [= <-]; subst key; by rewrite lookup_singleton_eq.
  - rewrite (Hlook key Hkin), Hd0, lookup_singleton_eq. eauto.
  - intros k Hk Hne. rewrite (Hlook k Hk), Hd0. by apply lookup_singleton_ne.
Qed.

(** X9: every property the format-mixin resolver returns is in the
    compiled legend with the value the resolver gives it, if it is not one
    of "orient", "values" and "properties", which the compiler writes
    after the mixins. *)
Theorem format_mixins_applied model channel def mixins k v :
  parseLegend model channel = Some def ->
  formatMixins (legend model channel) model channel = Some mixins ->
  mixins !! k = Some v ->
  k ∉ ["orient"; "values"; "properties"] ->
  def !! k = Some v.
Proof.
  intros Hp Hm Hk Hn.
  destruct (parseLegend_inv _ _ _ Hp)
    as (d0 & t & mixins' & def1 & props & Hd & Ht & Hmix & H1 & _ & H2).
  rewrite Hm in Hmix. injection Hmix as <-.
  rewrite (loops_keep _ _ _ _ _ k H2) by (intros ->; set_solver).
  rewrite (copy_stage _ _ _ k H1).
  rewrite bool_decide_eq_false_2 by set_solver. cbn [andb].
  unfold extend; cbn. by apply lookup_union_Some_l.
Qed.

(** ** Property groups *)

Lemma add_group_no_keys fieldDef props model channel def group def' :
  add_group fieldDef props model channel def group = Some def' ->
  has_keys (group_value fieldDef props model channel group) = false ->
  def' = def.
Proof.
  unfold add_group, group_value.
  destruct (get_prop props group) as [o|]; cbn; [|done].
  intros Hrun Hk. rewrite Hk in Hrun. by injection Hrun.
Qed.

Lemma groups_run fieldDef props model channel groups :
  NoDup groups ->
  forall def0 def,
    forEach (add_group fieldDef props model channel) def0 groups = Some def ->
    forall g,
      group_of def g =
        if bool_decide (g ∈ groups)
           && has_keys (group_value fieldDef props model channel g)
        then Some (group_value fieldDef props model channel g)
        else group_of def0 g.
Proof.
  induction 1 as [|x groups Hx Hnd IH]; intros def0 def; cbn [forEach].
  - intros [= <-] g. by rewrite bool_decide_eq_false_2 by apply not_elem_of_nil.
  - intros Hrun g. apply bind_Some in Hrun as (da & Ea & Hrun).
    rewrite (IH _ _ Hrun g).
    destruct (decide (g = x)) as [->|Hne].
    + rewrite (bool_decide_eq_false_2 (x ∈ groups)) by done.
      rewrite bool_decide_eq_true_2 by left. cbn [andb].
      apply (add_group_same _ _ _ _ _ _ _ Ea).
    + rewrite (add_group_diff _ _ _ _ _ _ _ g Ea) by done.
      destruct (decide (g ∈ groups)) as [Hin|Hnin].
      * rewrite !bool_decide_eq_true_2; [done|by right|done].
      * rewrite !bool_decide_eq_false_2; [done| |done].
        intros Hin. apply elem_of_cons in Hin as [?|?]; done.
Qed.

Lemma four_groups_NoDup : NoDup ["title"; "symbols"; "legend"; "labels"].
Proof. repeat (constructor; [set_solver|]). constructor. Qed.

Lemma before_groups model channel d0 t mixins def1 :
  getLegendDefWithScale model channel = VObj d0 ->
  formatting_only model channel ->
  formatMixins (legend model channel) model channel = Some mixins ->
  forEach (copy_property (legend model channel))
          (extend (<["title" := t]> d0) (VObj mixins)) ["orient"; "values"]
    = Some def1 ->
  def1 !! "properties" = None.
Proof.
  intros Hd Hf Hm H1. rewrite (copy_stage _ _ _ "properties" H1).
  rewrite bool_decide_eq_false_2 by set_solver. cbn [andb].
  rewrite (stage_after_mixins model channel) by
    (try done; unfold legend_keys; set_solver).
  rewrite lookup_insert_ne by done.
  destruct (scale_definition _ _ _ Hd) as (_ & key & scale & -> & Hkey).
  apply lookup_singleton_ne. intros Heq. rewrite Heq in Hkey.
  destruct channel; try destruct (truthy (get _ "filled")); done.
Qed.

(** The groups of a compiled legend. *)
Lemma compiled_groups model channel def props :
  formatting_only model channel ->
  parseLegend model channel = Some def ->
  properties_of (legend model channel) = Some props ->
  forall g,
    group_of def g =
      if bool_decide (g ∈ ["title"; "symbols"; "legend"; "labels"])
         && has_keys (group_value (fieldDef model channel) props model channel g)
      then Some (group_value (fieldDef model channel) props model channel g)
      else None.
Proof.
  intros Hf Hp Hprops g.
  destruct (parseLegend_inv _ _ _ Hp)
    as (d0 & t & mixins & def1 & props' & Hd & Ht & Hmix & H1 & Hprops' & H2).
  rewrite Hprops in Hprops'. injection Hprops' as <-.
  rewrite (groups_run _ _ _ _ _ four_groups_NoDup _ _ H2 g).
  assert (group_of def1 g = None) as ->; [|done].
  unfold group_of, get. by rewrite (before_groups _ _ _ _ _ _ Hd Hf Hmix H1).
Qed.

Lemma properties_of_request o :
  properties_of (LegendObj o) = Some (js_or (get o "properties") (VObj ∅)).
Proof. done. Qed.

(** X10: the groups "title" and "legend", which have no generation rule,
    are the overrides of the request, verbatim; a group the request does
    not override, or overrides with an object without keys, is left out. *)
Theorem groups_without_rule_pass_through model channel def o overrides group :
  formatting_only model channel ->
  parseLegend model channel = Some def ->
  legend model channel = LegendObj o ->
  get o "properties" = VObj overrides ->
  group ∈ ["title"; "legend"] ->
  group_of def group =
    match overrides !! group with
    | Some override => if has_keys override then Some override else None
    | None => None
    end.
Proof.
  intros Hf Hp Hl Ho Hg.
  assert (properties_of (legend model channel) = Some (VObj overrides)) as Hprops.
  { by rewrite Hl, properties_of_request, Ho. }
  rewrite (compiled_groups _ _ _ _ Hf Hp Hprops group).
  rewrite bool_decide_eq_true_2 by set_solver. cbn [andb].
  assert (group_value (fieldDef model channel) (VObj overrides) model channel group
          = default VUndef (overrides !! group)) as ->.
  { unfold group_value.
    repeat (apply elem_of_cons in Hg as [->|Hg]); [..|by apply elem_of_nil in Hg];
      reflexivity. }
  by destruct (overrides !! group).
Qed.

(** X11: a compiled legend never holds an empty group or a group other
    than the four, and it has a "properties" member exactly when one of the
    four groups has a key. *)
Theorem no_empty_group model channel def props :
  formatting_only model channel ->
  parseLegend model channel = Some def ->
  properties_of (legend model channel) = Some props ->
  (forall g v, group_of def g = Some v ->
     g ∈ ["title"; "symbols"; "legend"; "labels"] /\ has_keys v = true) /\
  (def !! "properties" = None <->
   forall g, g ∈ ["title"; "symbols"; "legend"; "labels"] ->
     has_keys (group_value (fieldDef model channel) props model channel g)
     = false).
Proof.
  intros Hf Hp Hprops.
  pose proof (compiled_groups _ _ _ _ Hf Hp Hprops) as Hgroups.
  split.
  - intros g v. rewrite Hgroups.
    destruct (bool_decide _) eqn:Eg; cbn [andb]; [|done].
    destruct (has_keys _) eqn:Ek; [|done].
    intros [= <-]. split; [|done]. by apply bool_decide_eq_true_1 in Eg.
  - split.
    + intros Hnone g Hg.
      pose proof (Hgroups g) as Hgg. rewrite bool_decide_eq_true_2 in Hgg by done.
      cbn [andb] in Hgg. destruct (has_keys _); [|done].
      unfold group_of, get in Hgg. by rewrite Hnone in Hgg.
    + intros Hall.
      destruct (parseLegend_inv _ _ _ Hp)
        as (d0 & t & mixins & def1 & props' & Hd & Ht & Hmix & H1 & Hprops' & H2).
      rewrite Hprops in Hprops'. injection Hprops' as <-.
      assert (def = def1) as ->; [|by eapply before_groups].
      refine (forEach_invariant_in (fun d => d = def1) _ _ _ _ _ H2 eq_refl).
      intros s x s' Hx Hs ->. eapply add_group_no_keys; [done|]. by apply Hall.
Qed.

(** ** The labels rule *)

(** X12: the labels rule generates nothing off the color channel; on the
    color channel it generates a group, with the single key "text", exactly
    when the legend binds to the ordinal color-legend scale; an ordinal
    field takes the scale of that legend even when it is binned, a binned
    field that is not ordinal takes the label variant; and the compiled
    color legend then holds that group. *)
Theorem labels_follow_the_legend_scale fieldDef symbolsSpec model :
  (forall channel, channel ≠ COLOR ->
     labels fieldDef symbolsSpec model channel = VUndef) /\
  is_undef (labels fieldDef symbolsSpec model COLOR)
    = negb (truthy (useColorLegendScale fieldDef)) /\
  (is_str (get fieldDef "type") ORDINAL = true ->
     labels fieldDef symbolsSpec model COLOR =
       VObj {[ "text" := VObj {[ "scale" := VStr (scaleName model COLOR_LEGEND);
                                 "field" := VStr "data" ]} ]}) /\
  (is_str (get fieldDef "type") ORDINAL = false ->
   truthy (get fieldDef "bin") = true ->
     labels fieldDef symbolsSpec model COLOR =
       VObj {[ "text" :=
                 VObj {[ "scale" := VStr (scaleName model COLOR_LEGEND_LABEL);
                         "field" := VStr "data" ]} ]}) /\
  (forall def,
     parseLegend model COLOR = Some def ->
     truthy (useColorLegendScale (CompileLegend.fieldDef model COLOR)) = true ->
     exists text, group_of def "labels" = Some (VObj {[ "text" := text ]})).
Proof.
  assert (forall fd spec,
            truthy (useColorLegendScale fd) = true ->
            exists text, labels fd spec model COLOR = VObj {[ "text" := text ]})
    as Hgen.
  { intros fd spec. rewrite useColorLegendScale_truthy. unfold labels.
    rewrite bool_decide_eq_true_2 by done.
    destruct (is_str _ _); [eauto|]. destruct (truthy (get fd "bin")); [eauto|].
    destruct (truthy (get fd "timeUnit")); [eauto|done]. }
  split; [|split; [|split; [|split]]].
  - intros channel Hc. unfold labels. by rewrite bool_decide_eq_false_2.
  - rewrite useColorLegendScale_truthy. unfold labels.
    rewrite bool_decide_eq_true_2 by done.
    destruct (is_str _ _); [done|]. destruct (truthy (get fieldDef "bin")); [done|].
    by destruct (truthy (get fieldDef "timeUnit")).
  - intros Ho. unfold labels. by rewrite bool_decide_eq_true_2, Ho.
  - intros Ho Hb. unfold labels. by rewrite bool_decide_eq_true_2, Ho, Hb.
  - intros def Hp Huse.
    destruct (parseLegend_inv _ _ _ Hp)
      as (_ & _ & _ & _ & props & _ & _ & _ & _ & Hprops & _).
    destruct (Hgen (CompileLegend.fieldDef model COLOR)
                (default VUndef (get_prop props "labels")) Huse) as [text Htext].
    exists text. rewrite <- Htext.
    apply (parseLegend_group model COLOR def props "labels"); [done|done|set_solver|].
    change (group_value (CompileLegend.fieldDef model COLOR) props model COLOR "labels")
      with (labels (CompileLegend.fieldDef model COLOR)
              (default VUndef (get_prop props "labels")) model COLOR).
    rewrite Htext. unfold has_keys. cbn [is_undef negb andb].
    apply (keys_nonempty _ "text"). by rewrite lookup_singleton_eq.
Qed.

(** ** The symbols rule *)

Lemma symbols_decompose fieldDef symbolsSpec model channel :
  symbols fieldDef symbolsSpec model channel =
    let merged :=
      extend (symbols_before_override fieldDef model channel)
             (js_or symbolsSpec (VObj ∅)) in
    if bool_decide (0 < length (keys (VObj merged)))%nat then VObj merged
    else VUndef.
Proof. reflexivity. Qed.

Lemma symbols_object fieldDef symbolsSpec model channel s :
  symbols fieldDef symbolsSpec model channel = VObj s ->
  s = enumerable (js_or symbolsSpec (VObj ∅))
      ∪ symbols_before_override fieldDef model channel.
Proof.
  rewrite symbols_decompose. cbn zeta. unfold extend.
  destruct (bool_decide _); [|done]. by intros [= <-].
Qed.

Lemma symbols_object_exists fieldDef symbolsSpec model channel k :
  is_Some (symbols_before_override fieldDef model channel !! k) ->
  exists s, symbols fieldDef symbolsSpec model channel = VObj s.
Proof.
  intros Hk. rewrite symbols_decompose. cbn zeta.
  rewrite (keys_nonempty _ k); [eauto|]. by apply extend_lookup_is_Some.
Qed.

Lemma before_override_strokeWidth fieldDef model channel :
  truthy (get (markConfig (config model)) "filled") = true ->
  symbols_before_override fieldDef model channel !! "strokeWidth"
  = Some (VObj {[ "value" := VNum 0 ]}).
Proof.
  intros Hfilled. unfold symbols_before_override. rewrite Hfilled.
  destruct (negb (is_undef _)); [|destruct (bool_decide (channel ≠ COLOR))];
    rewrite ?(lookup_insert_ne _ "fill" "strokeWidth") by done;
    by rewrite lookup_insert_eq.
Qed.

Lemma before_override_other fieldDef model channel j :
  j ∉ ["strokeWidth"; "fill"; "stroke"] ->
  symbols_before_override fieldDef model channel !! j =
    applyMarkConfig (symbols_shape (mark model) ∅) model
      (if bool_decide (channel = COLOR)
       then without FILL_STROKE_CONFIG
              [if truthy (get (markConfig (config model)) "filled")
               then "fill" else "stroke"]
       else FILL_STROKE_CONFIG) !! j.
Proof.
  intros Hj. unfold symbols_before_override.
  assert (j ≠ "strokeWidth" /\ j ≠ "fill" /\ j ≠ "stroke") as (H1 & H2 & H3)
    by set_solver.
  destruct (truthy (get (markConfig (config model)) "filled"));
    destruct (negb (is_undef _)); try destruct (bool_decide (channel ≠ COLOR));
    rewrite ?lookup_insert_ne by done; done.
Qed.

Lemma before_override_color fieldDef model :
  has model COLOR = true ->
  let filled := truthy (get (markConfig (config model)) "filled") in
  let k := if filled then "fill" else "stroke" in
  symbols_before_override fieldDef model COLOR !! k =
    if truthy (useColorLegendScale fieldDef)
    then Some (VObj {[ "scale" := VStr (scaleName model (channel_name COLOR));
                       "field" := VStr "data" ]})
    else applyMarkConfig (symbols_shape (mark model) ∅) model
           (without FILL_STROKE_CONFIG [k]) !! k.
Proof.
  intros Hhas. cbn zeta. unfold symbols_before_override.
  rewrite Hhas, !bool_decide_eq_true_2 by done. cbn [andb].
  rewrite (bool_decide_eq_false_2 (COLOR ≠ COLOR)) by (intros Hn; by apply Hn).
  destruct (truthy (get (markConfig (config model)) "filled"));
    destruct (truthy (useColorLegendScale fieldDef)); cbn [is_undef negb];
    rewrite ?lookup_insert_eq; try done.
  by rewrite lookup_insert_ne.
Qed.

Lemma not_in_without xs k : k ∉ without xs [k].
Proof.
  unfold without. intros Hin. apply list_elem_of_filter in Hin as [Hn _].
  apply Hn. by left.
Qed.

Lemma symbols_shape_lookup mark j :
  j ≠ "shape" -> symbols_shape mark ∅ !! j = None.
Proof.
  intros Hj. destruct mark; cbn; rewrite ?lookup_insert_ne by done; done.
Qed.

(** X13: the shape of the symbols is decided by the mark: a square for
    bar, tick and text marks, the mark's own shape for circle and square
    marks, none for the other marks, unless the override gives one.  (The
    configuration merge is under its contract, and "shape" is none of the
    properties it merges.) *)
Theorem symbols_shape_by_mark fieldDef symbolsSpec model channel s :
  writes_listed_only ->
  "shape" ∉ FILL_STROKE_CONFIG ->
  enumerable (js_or symbolsSpec (VObj ∅)) !! "shape" = None ->
  symbols fieldDef symbolsSpec model channel = VObj s ->
  s !! "shape" =
    match mark model with
    | BAR | TICK | TEXT => Some (VObj {[ "value" := VStr "square" ]})
    | CIRCLE => Some (VObj {[ "value" := VStr "circle" ]})
    | SQUARE => Some (VObj {[ "value" := VStr "square" ]})
    | _ => None
    end.
Proof.
  intros Hw Hshape Hspec Hs. rewrite (symbols_object _ _ _ _ _ Hs).
  rewrite lookup_union_r by done.
  rewrite before_override_other by set_solver.
  rewrite Hw.
  - destruct (mark model); cbn; by rewrite ?lookup_insert_eq.
  - destruct (bool_decide (channel = COLOR)); [|done].
    unfold without. intros Hin. by apply list_elem_of_filter in Hin as [_ Hin].
Qed.

(** X14: for a filled mark the stroke width of the symbols is 0, whatever
    stroke width the mark configuration gives; only the override of the
    request changes it. *)
Theorem filled_symbols_have_no_stroke fieldDef symbolsSpec model channel :
  truthy (get (markConfig (config model)) "filled") = true ->
  enumerable (js_or symbolsSpec (VObj ∅)) !! "strokeWidth" = None ->
  exists s,
    symbols fieldDef symbolsSpec model channel = VObj s /\
    s !! "strokeWidth" = Some (VObj {[ "value" := VNum 0 ]}).
Proof.
  intros Hfilled Hspec.
  pose proof (before_override_strokeWidth fieldDef model channel Hfilled) as Hw.
  destruct (symbols_object_exists fieldDef symbolsSpec model channel "strokeWidth")
    as [s Hs]; [by rewrite Hw|].
  exists s. split; [done|].
  rewrite (symbols_object _ _ _ _ _ Hs). by rewrite lookup_union_r.
Qed.

(** X15: in the legend of a color channel that binds to the ordinal
    color-legend scale, the symbols take their fill (filled mark) or stroke
    (unfilled mark) from the color scale, looked up by "data", unless the
    override gives one. *)
Theorem ordinal_color_swatch fieldDef symbolsSpec model :
  has model COLOR = true ->
  truthy (useColorLegendScale fieldDef) = true ->
  let k := if truthy (get (markConfig (config model)) "filled")
           then "fill" else "stroke" in
  enumerable (js_or symbolsSpec (VObj ∅)) !! k = None ->
  exists s,
    symbols fieldDef symbolsSpec model COLOR = VObj s /\
    s !! k = Some (VObj {[ "scale" := VStr (scaleName model (channel_name COLOR));
                           "field" := VStr "data" ]}).
Proof.
  intros Hhas Huse. cbn zeta. intros Hspec.
  pose proof (before_override_color fieldDef model Hhas) as Hk.
  cbn zeta in Hk. rewrite Huse in Hk.
  destruct (symbols_object_exists fieldDef symbolsSpec model COLOR
              (if truthy (get (markConfig (config model)) "filled")
               then "fill" else "stroke")) as [s Hs]; [by rewrite Hk|].
  exists s. split; [done|].
  rewrite (symbols_object _ _ _ _ _ Hs). by rewrite lookup_union_r.
Qed.

(** X16: in the legend of a color channel that binds to the continuous
    color scale, the symbols have no fill (filled mark) or stroke (unfilled
    mark) of their own: the one of the mark configuration is not merged
    in, so that the scale of the legend decides.  (The configuration merge
    is under its contract.) *)
Theorem continuous_color_swatch_is_left_to_the_scale
    fieldDef symbolsSpec model s :
  writes_listed_only ->
  has model COLOR = true ->
  truthy (useColorLegendScale fieldDef) = false ->
  let k := if truthy (get (markConfig (config model)) "filled")
           then "fill" else "stroke" in
  enumerable (js_or symbolsSpec (VObj ∅)) !! k = None ->
  symbols fieldDef symbolsSpec model COLOR = VObj s ->
  s !! k = None.
Proof.
  intros Hw Hhas Huse. cbn zeta. intros Hspec Hs.
  rewrite (symbols_object _ _ _ _ _ Hs). rewrite lookup_union_r by done.
  pose proof (before_override_color fieldDef model Hhas) as Hk.
  cbn zeta in Hk. rewrite Huse in Hk. rewrite Hk.
  rewrite Hw by apply not_in_without.
  apply symbols_shape_lookup.
  destruct (truthy (get (markConfig (config model)) "filled")); discriminate.
Qed.

(** X17: in the legend of a size or shape channel, a constant color on the
    color channel is the fill (filled mark) or stroke (unfilled mark) of the
    symbols, before the fill or stroke and the generic color of the mark
    configuration; only the override of the request changes it. *)
Theorem constant_color_swatch fieldDef symbolsSpec model channel :
  channel ≠ COLOR ->
  truthy (get (CompileLegend.fieldDef model COLOR) "value") = true ->
  let k := if truthy (get (markConfig (config model)) "filled")
           then "fill" else "stroke" in
  enumerable (js_or symbolsSpec (VObj ∅)) !! k = None ->
  exists s,
    symbols fieldDef symbolsSpec model channel = VObj s /\
    s !! k = Some (VObj {[ "value" :=
                             get (CompileLegend.fieldDef model COLOR) "value" ]}).
Proof.
  intros Hc Hvalue. cbn zeta. intros Hspec.
  destruct (symbols_not_color fieldDef symbolsSpec model channel Hc)
    as (g & Hg & Hs).
  cbn zeta in Hg. rewrite Hvalue in Hg.
  eexists. split; [exact Hs|]. unfold extend. by rewrite lookup_union_r.
Qed.

(** X19: every property of a compiled legend is one the compiler writes
    itself (a scale reference, "title", "orient", "values", "properties")
    or one the format-mixin resolver returned for this legend. *)
Theorem compiled_legend_properties model channel def k :
  parseLegend model channel = Some def ->
  is_Some (def !! k) ->
  k ∈ ["fill"; "stroke"; "size"; "shape"; "title"; "orient"; "values";
       "properties"] \/
  exists mixins,
    formatMixins (legend model channel) model channel = Some mixins /\
    is_Some (mixins !! k).
Proof. intros Hp Hk. exact (parseLegend_dom model channel def k Hp Hk). Qed.

End Facts.

Section WithMarkDefaults.
Context `{CompileConfig.EncodingHelpers} `{Collaborators}.

(** X20: the legend compiler on the output of the mark-default resolver.
    When the mark configuration of the model is the one [initMarkConfig]
    resolves from a base configuration without "filled", the color legend
    refers to its scale under "stroke" for point, line and rule marks and
    under "fill" for every other mark, and the symbols of every legend of
    such another mark have stroke width 0, unless the symbols override of
    the request gives a stroke width. *)
Theorem legend_of_resolved_configuration model encoding base :
  markConfig (config model)
    = CompileConfig.initMarkConfig (mark model) encoding base ->
  markConfig base !! "filled" = None ->
  let unfilled := bool_decide (mark model ∈ [POINT; LINE; RULE]) in
  getLegendDefWithScale model COLOR =
    VObj {[ (if unfilled then "stroke" else "fill") :=
              VStr (scaleName model
                      (if truthy (useColorLegendScale
                                    (CompileLegend.fieldDef model COLOR))
                       then COLOR_LEGEND else channel_name COLOR)) ]} /\
  (unfilled = false ->
   forall fieldDef symbolsSpec channel,
     enumerable (js_or symbolsSpec (VObj ∅)) !! "strokeWidth" = None ->
     exists s,
       symbols fieldDef symbolsSpec model channel = VObj s /\
       s !! "strokeWidth" = Some (VObj {[ "value" := VNum 0 ]})).
Proof.
  intros Hconfig Hbase. cbn zeta.
  assert (truthy (get (markConfig (config model)) "filled")
          = negb (bool_decide (mark model ∈ [POINT; LINE; RULE]))) as Hfilled.
  { unfold get. rewrite Hconfig, ConfigFacts.initMarkConfig_lookup, Hbase.
    rewrite ConfigFacts.derived_filled, (ConfigFacts.absent_is_undef _ _ Hbase).
    cbn. by destruct (mark model). }
  split.
  - unfold getLegendDefWithScale. rewrite Hfilled.
    by destruct (bool_decide _).
  - intros Hun fieldDef symbolsSpec channel Hspec.
    rewrite Hun in Hfilled. cbn [negb] in Hfilled.
    pose proof (before_override_strokeWidth fieldDef model channel Hfilled) as Hw.
    destruct (symbols_object_exists fieldDef symbolsSpec model channel "strokeWidth")
      as [s Hs]; [by rewrite Hw|].
    exists s. split; [done|].
    rewrite (symbols_object _ _ _ _ _ Hs). by rewrite lookup_union_r.
Qed.

End WithMarkDefaults.

End LegendMore.

(** * The additional properties on the sample inputs *)

Module LegendMoreWitnesses.
Import CompileLegend LegendFacts LegendParts LegendMore.

(** The reference configuration merge meets its contract. *)
Lemma reference_writes_listed_only :
  @writes_listed_only Reference.collaborators.
Proof.
  intros properties model propsList k. cbn. unfold Reference.applyMarkConfig.
  revert properties. induction propsList as [|p ps IH]; intros properties Hk.
  - done.
  - cbn [foldl]. apply not_elem_of_cons in Hk as [Hne Hk]. rewrite IH by done.
    destruct (negb (is_undef _)); [|done]. by apply lookup_insert_ne.
Qed.

Lemma titled_size_compiles :
  exists def,
    @parseLegend Reference.collaborators Samples.titled_size_model SIZE = Some def.
Proof.
  apply (@parseLegend_total Reference.collaborators Samples.titled_size_model SIZE).
  - apply list_elem_of_further, list_elem_of_here.
  - reflexivity.
  - apply LegendWitnesses.reference_formatting_only.
Qed.

Lemma format_applied_on_sample def :
  @parseLegend Reference.collaborators Samples.titled_size_model SIZE = Some def ->
  def !! "format" = Some (VStr "d").
Proof.
  intros Hp.
  assert ((@parseLegend Reference.collaborators Samples.titled_size_model SIZE
             ≫= fun d => d !! "format") = Some (VStr "d")) as Hrun
    by (vm_compute; reflexivity).
  rewrite Hp in Hrun. exact Hrun.
Qed.

Lemma parseLegend_returns_iff_witness :
  is_Some (@parseLegend Reference.collaborators
             Samples.continuous_color_model COLOR).
Proof.
  refine (proj2 (@parseLegend_returns_iff Reference.collaborators
                   Samples.continuous_color_model COLOR)
            (LegendWitnesses.reference_formatting_only _ _) _ _).
  - apply list_elem_of_here.
  - discriminate.
Defined.

Lemma compiled_title_witness :
  exists def,
    @parseLegend Reference.collaborators Samples.titled_size_model SIZE
      = Some def /\
    def !! "title" = Some (VStr "Population").
Proof.
  destruct titled_size_compiles as [def Hdef]. exists def. split; [exact Hdef|].
  exact (@compiled_title Reference.collaborators Samples.titled_size_model SIZE
           def (LegendWitnesses.reference_formatting_only _ _) Hdef).
Defined.

Lemma orient_and_values_copied_witness :
  exists def,
    @parseLegend Reference.collaborators Samples.titled_size_model SIZE
      = Some def /\
    def !! "orient" = Some (VStr "left") /\ def !! "values" = None.
Proof.
  destruct titled_size_compiles as [def Hdef]. exists def. split; [exact Hdef|].
  split.
  - refine (@orient_and_values_copied Reference.collaborators
              Samples.titled_size_model SIZE def "orient"
              (LegendWitnesses.reference_formatting_only _ _) Hdef _).
    apply list_elem_of_here.
  - refine (@orient_and_values_copied Reference.collaborators
              Samples.titled_size_model SIZE def "values"
              (LegendWitnesses.reference_formatting_only _ _) Hdef _).
    apply list_elem_of_further, list_elem_of_here.
Defined.

Lemma one_scale_reference_witness :
  exists def,
    @parseLegend Reference.collaborators Samples.titled_size_model SIZE
      = Some def /\
    def !! "size" = Some (VStr "size") /\ def !! "fill" = None.
Proof.
  destruct titled_size_compiles as [def Hdef]. exists def. split; [exact Hdef|].
  pose proof (@one_scale_reference Reference.collaborators
                Samples.titled_size_model SIZE def
                (LegendWitnesses.reference_formatting_only _ _) Hdef) as (Hsize & _ & Hothers).
  split.
  - apply Hsize. apply list_elem_of_here.
  - apply Hothers; [apply list_elem_of_here|discriminate].
Defined.

Lemma format_mixins_applied_witness :
  exists def,
    @parseLegend Reference.collaborators Samples.titled_size_model SIZE
      = Some def /\
    def !! "format" = Some (VStr "d").
Proof.
  destruct titled_size_compiles as [def Hdef]. exists def. split; [exact Hdef|].
  refine (@format_mixins_applied Reference.collaborators
            Samples.titled_size_model SIZE def {[ "format" := VStr "d" ]}
            "format" (VStr "d") Hdef _ _ _).
  - reflexivity.
  - reflexivity.
  - intros Hin.
    repeat (apply elem_of_cons in Hin as [Hin|Hin]; [discriminate Hin|]).
    by apply elem_of_nil in Hin.
Defined.

Lemma groups_without_rule_pass_through_witness :
  exists def,
    @parseLegend Reference.collaborators Samples.titled_size_model SIZE
      = Some def /\
    group_of def "title"
      = Some (VObj {[ "fontSize" := VObj {[ "value" := VNum 12 ]} ]}) /\
    group_of def "legend" = None.
Proof.
  destruct titled_size_compiles as [def Hdef]. exists def. split; [exact Hdef|].
  split.
  - refine (@groups_without_rule_pass_through Reference.collaborators
              Samples.titled_size_model SIZE def _ _ "title"
              (LegendWitnesses.reference_formatting_only _ _) Hdef eq_refl eq_refl _).
    apply list_elem_of_here.
  - refine (@groups_without_rule_pass_through Reference.collaborators
              Samples.titled_size_model SIZE def _ _ "legend"
              (LegendWitnesses.reference_formatting_only _ _) Hdef eq_refl eq_refl _).
    apply list_elem_of_further, list_elem_of_here.
Defined.

Lemma no_empty_group_witness :
  exists def,
    @parseLegend Reference.collaborators Samples.titled_size_model SIZE
      = Some def /\
    forall g v, group_of def g = Some v -> has_keys v = true.
Proof.
  destruct titled_size_compiles as [def Hdef]. exists def. split; [exact Hdef|].
  intros g v Hg.
  exact (proj2 (proj1 (@no_empty_group Reference.collaborators
                         Samples.titled_size_model SIZE def _
                         (LegendWitnesses.reference_formatting_only _ _) Hdef eq_refl) g v Hg)).
Defined.

Lemma labels_follow_the_legend_scale_witness :
  @labels Reference.collaborators
    {[ "field" := VStr "a"; "type" := VStr "ordinal" ]} VUndef
    Reference.ordinal_color_model SIZE = VUndef.
Proof.
  refine (proj1 (@labels_follow_the_legend_scale Reference.collaborators
                   {[ "field" := VStr "a"; "type" := VStr "ordinal" ]} VUndef
                   Reference.ordinal_color_model) SIZE _).
  discriminate.
Defined.

Lemma titled_size_symbols :
  exists s,
    @symbols Reference.collaborators
      (fieldDef Samples.titled_size_model SIZE) VUndef
      Samples.titled_size_model SIZE = VObj s.
Proof.
  apply (@symbols_object_exists Reference.collaborators _ _ _ _ "strokeWidth").
  rewrite before_override_strokeWidth; [eauto|reflexivity].
Qed.

Lemma symbols_shape_by_mark_witness :
  exists s,
    @symbols Reference.collaborators
      (fieldDef Samples.titled_size_model SIZE) VUndef
      Samples.titled_size_model SIZE = VObj s /\
    s !! "shape" = Some (VObj {[ "value" := VStr "square" ]}).
Proof.
  destruct titled_size_symbols as [s Hs]. exists s. split; [exact Hs|].
  refine (@symbols_shape_by_mark Reference.collaborators _ VUndef
            Samples.titled_size_model SIZE s reference_writes_listed_only
            _ _ Hs).
  - intros Hin.
    repeat (apply elem_of_cons in Hin as [Hin|Hin]; [discriminate Hin|]).
    by apply elem_of_nil in Hin.
  - reflexivity.
Defined.

Lemma filled_symbols_have_no_stroke_witness :
  exists s,
    @symbols Reference.collaborators
      (fieldDef Samples.titled_size_model SIZE) VUndef
      Samples.titled_size_model SIZE = VObj s /\
    s !! "strokeWidth" = Some (VObj {[ "value" := VNum 0 ]}).
Proof.
  refine (@filled_symbols_have_no_stroke Reference.collaborators _ VUndef
            Samples.titled_size_model SIZE _ _); reflexivity.
Defined.

Lemma ordinal_color_swatch_witness :
  exists s,
    @symbols Reference.collaborators
      (fieldDef Reference.ordinal_color_model COLOR) VUndef
      Reference.ordinal_color_model COLOR = VObj s /\
    s !! "stroke" = Some (VObj {[ "scale" := VStr "color";
                                  "field" := VStr "data" ]}).
Proof.
  refine (@ordinal_color_swatch Reference.collaborators _ VUndef
            Reference.ordinal_color_model _ _ _); reflexivity.
Defined.

Lemma continuous_color_symbols :
  exists s,
    @symbols Reference.collaborators
      (fieldDef Samples.continuous_color_model COLOR) VUndef
      Samples.continuous_color_model COLOR = VObj s.
Proof.
  apply (@symbols_object_exists Reference.collaborators _ _ _ _ "strokeWidth").
  rewrite before_override_strokeWidth; [eauto|reflexivity].
Qed.

Lemma continuous_color_swatch_is_left_to_the_scale_witness :
  exists s,
    @symbols Reference.collaborators
      (fieldDef Samples.continuous_color_model COLOR) VUndef
      Samples.continuous_color_model COLOR = VObj s /\
    s !! "fill" = None.
Proof.
  destruct continuous_color_symbols as [s Hs]. exists s. split; [exact Hs|].
  refine (@continuous_color_swatch_is_left_to_the_scale Reference.collaborators
            _ VUndef Samples.continuous_color_model s
            reference_writes_listed_only _ _ _ Hs); reflexivity.
Defined.

Lemma constant_color_swatch_witness :
  exists s,
    @symbols Reference.collaborators
      (fieldDef Samples.constant_color_model SHAPE) VUndef
      Samples.constant_color_model SHAPE = VObj s /\
    s !! "stroke" = Some (VObj {[ "value" := VStr "red" ]}).
Proof.
  refine (@constant_color_swatch Reference.collaborators _ VUndef
            Samples.constant_color_model SHAPE _ _ _).
  - discriminate.
  - reflexivity.
  - reflexivity.
Defined.

Lemma compiled_legend_properties_witness :
  exists def,
    @parseLegend Reference.collaborators Samples.titled_size_model SIZE
      = Some def /\
    ("format" ∈ ["fill"; "stroke"; "size"; "shape"; "title"; "orient"; "values";
                 "properties"] \/
     exists mixins,
       @formatMixins Reference.collaborators
         (legend Samples.titled_size_model SIZE) Samples.titled_size_model SIZE
         = Some mixins /\
       is_Some (mixins !! "format")).
Proof.
  destruct titled_size_compiles as [def Hdef]. exists def. split; [exact Hdef|].
  refine (@compiled_legend_properties Reference.collaborators
            Samples.titled_size_model SIZE def "format" Hdef _).
  rewrite (@format_applied_on_sample def Hdef). eauto.
Defined.

Lemma legend_of_resolved_configuration_witness :
  @getLegendDefWithScale Reference.collaborators Samples.resolved_line_model
    COLOR =
    VObj {[ "stroke" :=
              VStr (scaleName Samples.resolved_line_model
                      (if truthy (useColorLegendScale
                                    (fieldDef Samples.resolved_line_model COLOR))
                       then @COLOR_LEGEND Reference.collaborators
                       else channel_name COLOR)) ]} /\
  exists s,
    @symbols Reference.collaborators
      (fieldDef Samples.resolved_bar_model SIZE)
      (VObj {[ "size" := VObj {[ "value" := VNum 40 ]} ]})
      Samples.resolved_bar_model SIZE = VObj s /\
    s !! "strokeWidth" = Some (VObj {[ "value" := VNum 0 ]}).
Proof.
  split.
  - refine (proj1 (@legend_of_resolved_configuration Reference.encodingHelpers
                     Reference.collaborators Samples.resolved_line_model
                     Reference.encoding_xq_yn {| markConfig := ∅ |} _ _)).
    + reflexivity.
    + reflexivity.
  - refine (proj2 (@legend_of_resolved_configuration Reference.encodingHelpers
                     Reference.collaborators Samples.resolved_bar_model
                     Reference.encoding_xq_yn
                     {| markConfig := {[ "strokeWidth" := VNum 2 ]} |} _ _)
              _ _ _ SIZE _).
    + reflexivity.
    + vm_compute. reflexivity.
    + vm_compute. reflexivity.
    + vm_compute. reflexivity.
Defined.

End LegendMoreWitnesses.

(** * More on the store embedding *)

Module StoreMore.
Import Store StoreFacts.

Section Legend.
Context `{Legend.Collaborators}.
Hypothesis contract : Legend.helpers_contract.
Implicit Types (D : gset loc) (h : heap) (model : Legend.UnitModel).

Lemma symbols_result D fieldDef symbolsSpec model channel h :
  preserves D (Legend.symbols fieldDef symbolsSpec model channel)
    (fun r _ => r = HUndef \/ exists l, r = HRef l /\ l ∉ D) h.
Proof.
  unfold Legend.symbols. pstep. pstep. rename l into ls.
  pseq. { destruct (Legend.mark model); repeat pstep; done. }
  pstep. pstep. pstep. pstep.
  apply preserves_bind, preserves_applyMarkConfig; [done|done|]. intros h2.
  pseq. { repeat pstep; done. }
  pseq.
  { pstep; pstep.
    - apply useColorLegendScale_preserves. intros use. repeat pstep; done.
    - repeat pstep; done. }
  pseq. { repeat pstep; done. }
  pseq. { repeat pstep; done. }
  repeat pstep; destruct (bool_decide _); eauto.
Qed.

Lemma labels_result D fieldDef symbolsSpec model channel h :
  preserves D (Legend.labels fieldDef symbolsSpec model channel)
    (fun r _ => r = HUndef \/ exists l, r = HRef l /\ l ∉ D) h.
Proof. unfold Legend.labels. repeat pstep; eauto. Qed.

End Legend.

(** X18: the group the symbols rule or the labels rule returns is an object
    the rule has created, never the override object of the request nor
    another object that exists before the call: the override is copied into
    it.  (The configuration merge is under its contract.) *)
Theorem generated_groups_are_new (collaborators : Legend.Collaborators) :
  Legend.helpers_contract ->
  forall fieldDef symbolsSpec model channel,
    returns_fresh (Legend.symbols fieldDef symbolsSpec model channel) /\
    returns_fresh (Legend.labels fieldDef symbolsSpec model channel).
Proof.
  intros contract fieldDef symbolsSpec model channel. split; intros h l Hr.
  - destruct (symbols_result contract (dom h) fieldDef symbolsSpec model channel h)
      as (_ & _ & Hres); [done|].
    destruct (Hres _ Hr) as [|(l' & [= <-] & Hl')]; done.
  - destruct (labels_result (dom h) fieldDef symbolsSpec model channel h)
      as (_ & _ & Hres); [done|].
    destruct (Hres _ Hr) as [|(l' & [= <-] & Hl')]; done.
Qed.

Lemma generated_groups_are_new_witness :
  (@Legend.symbols Reference.InStore.collaborators (HRef 3%positive)
     (HRef 6%positive) Reference.InStore.sample_model SIZE
     Reference.InStore.sample_store).1 = Some (HRef 8%positive)
  /\ 8%positive ∉ dom Reference.InStore.sample_store.
Proof.
  assert ((@Legend.symbols Reference.InStore.collaborators (HRef 3%positive)
             (HRef 6%positive) Reference.InStore.sample_model SIZE
             Reference.InStore.sample_store).1 = Some (HRef 8%positive)) as Hrun.
  { vm_compute. reflexivity. }
  split; [exact Hrun|].
  exact (proj1 (generated_groups_are_new Reference.InStore.collaborators
                  reference_contract (HRef 3%positive) (HRef 6%positive)
                  Reference.InStore.sample_model SIZE)
           Reference.InStore.sample_store 8%positive Hrun).
Defined.

End StoreMore.
